(** * mini-builder: the dependence-tree builder, the bundle emitter and the
      loader it generates (src/mini-builder.js).

    The development follows the JavaScript source function by function:
    - [Path]      : the two functions of Node's [path] module the builder calls
                    (POSIX flavour), on strings;
    - [JsObject]  : a plain JavaScript object with string keys and number
                    values, as [dependenceMapping] is;
    - [Ast]       : the fragment of the babylon syntax tree that [traverse]
                    walks, and the visitor of [createModule];
    - [Builder]   : [createModule] and [createDependenceTree];
    - [Emitter]   : [bundle] and the text of its template;
    - [Loader]    : the [require] function of the emitted text;
    - [Host]      : the argument of the emitted function, as the engine
                    reads it;
    - [Example]   : small disks and tables to run all of it on;
    - then the facts about each part and the properties of the program. *)

From Stdlib Require Import String Ascii List Arith PeanoNat NArith Lia Bool.
From Stdlib Require Import DecimalString Decimal.
From stdpp Require Import base list strings.
Import ListNotations.

Local Open Scope string_scope.
Local Open Scope list_scope.


(* ===================================================================== *)
(** ** Outcomes of a JavaScript computation *)

(** What a call can throw.  [FsError] is a system error of
    [fs.readFileSync] with its code and the path it was given,
    [SyntaxError] stands for what [babylon.parse] throws for the text of a
    file, [TransformError] for what [transformFromAst] throws, and
    [TypeError] is the engine's (destructuring [undefined], an invalid
    argument, a duplicate declaration).  The builder has no [throw] and no
    [try] of its own. *)
Inductive errno :=
| ENOENT
| EISDIR
| ENOTDIR
| EACCES
| ENAMETOOLONG
| OtherErrno (code : string).

Inductive exn :=
| FsError (code : errno) (file : string)
| SyntaxError (file : string)
| TransformError (file : string)
| TypeError.

(** A call returns, throws, or is still running when the fuel of the model
    is spent. *)
Inductive outcome (A : Type) :=
| Ok (a : A)
| Throw (e : exn)
| Timeout.
Arguments Ok {A} a.
Arguments Throw {A} e.
Arguments Timeout {A}.

Definition bind {A B} (m : outcome A) (k : A -> outcome B) : outcome B :=
  match m with
  | Ok a => k a
  | Throw e => Throw e
  | Timeout => Timeout
  end.

Notation "'let*' x := m 'in' k" := (bind m (fun x => k))
  (at level 10, x name, m at level 100, k at level 200).
Notation "'let*' ( x , y ) := m 'in' k" := (bind m (fun r => let '(x, y) := r in k))
  (at level 10, x name, y name, m at level 100, k at level 200).

(* ===================================================================== *)
(** ** Node's [path.dirname] and [path.join] (POSIX) *)

Module Path.

Definition slash : ascii := "/"%char.
Definition is_slash (c : ascii) : bool := Ascii.eqb c slash.

Fixpoint dropWhile {A} (p : A -> bool) (l : list A) : list A :=
  match l with
  | [] => []
  | x :: l' => if p x then dropWhile p l' else l
  end.

(** [dirname]: scan from the end down to index 1, skip the trailing
    slashes, then stop at the next slash: the prefix before it is the
    directory. *)
Definition dirname (p : string) : string :=
  match list_ascii_of_string p with
  | [] => "."
  | c0 :: rest =>
      let hasRoot := is_slash c0 in
      let scan := dropWhile (fun c => negb (is_slash c))
                            (dropWhile is_slash (rev rest)) in
      match scan with
      | [] => if hasRoot then "/" else "."
      | _ :: before =>
          match before with
          | [] => if hasRoot then "//" else string_of_list_ascii [c0]
          | _ => string_of_list_ascii (c0 :: rev before)
          end
      end
  end.

(** Segments of a path between slashes. *)
Fixpoint split_aux (cur : list ascii) (l : list ascii) : list string :=
  match l with
  | [] => [string_of_list_ascii (rev cur)]
  | c :: l' =>
      if is_slash c then string_of_list_ascii (rev cur) :: split_aux [] l'
      else split_aux (c :: cur) l'
  end.
Definition split (p : string) : list string :=
  split_aux [] (list_ascii_of_string p).

(** [normalizeString]: the stack of kept segments, last one first. *)
Fixpoint normalize_segments (allowAboveRoot : bool) (stack : list string)
         (segs : list string) : list string :=
  match segs with
  | [] => rev stack
  | s :: segs' =>
      if String.eqb s "" || String.eqb s "." then
        normalize_segments allowAboveRoot stack segs'
      else if String.eqb s ".." then
        match stack with
        | top :: below =>
            if String.eqb top ".." then
              normalize_segments allowAboveRoot
                (if allowAboveRoot then ".." :: stack else stack) segs'
            else normalize_segments allowAboveRoot below segs'
        | [] =>
            normalize_segments allowAboveRoot
              (if allowAboveRoot then [".."] else []) segs'
        end
      else normalize_segments allowAboveRoot (s :: stack) segs'
  end.

Definition normalizeString (p : string) (allowAboveRoot : bool) : string :=
  String.concat "/" (normalize_segments allowAboveRoot [] (split p)).

Definition ends_with_slash (p : string) : bool :=
  match rev (list_ascii_of_string p) with
  | c :: _ => is_slash c
  | [] => false
  end.

Definition normalize (p : string) : string :=
  match list_ascii_of_string p with
  | [] => "."
  | c0 :: _ =>
      let isAbsolute := is_slash c0 in
      let trailingSeparator := ends_with_slash p in
      let q := normalizeString p (negb isAbsolute) in
      if String.eqb q "" then
        if isAbsolute then "/"
        else if trailingSeparator then "./" else "."
      else
        let q := if trailingSeparator then q +:+ "/" else q in
        if isAbsolute then "/" +:+ q else q
  end.

(** [path.join(a, b)]: the non-empty arguments glued with a slash, then
    normalized. *)
Definition join (a b : string) : string :=
  let joined :=
    match String.eqb a "", String.eqb b "" with
    | true, true => None
    | true, false => Some b
    | false, true => Some a
    | false, false => Some (a +:+ "/" +:+ b)
    end in
  match joined with
  | None => "."
  | Some j => normalize j
  end.

End Path.

(* ===================================================================== *)
(** ** Plain objects with number values *)

Module JsObject.

(** A value that a property read or a [require] argument can be. *)
Inductive value :=
| VUndefined
| VNum (n : nat)
| VInherited (name : string).   (* a member of [Object.prototype] *)

(** Own properties in the order the engine enumerates them: array-index
    keys in ascending order first, then the other keys in creation order. *)
Definition t := list (string * nat).

Definition empty : t := [].

Definition is_digit (c : ascii) : bool :=
  let n := nat_of_ascii c in ((48 <=? n) && (n <=? 57))%nat.

Fixpoint digits_value (acc : N) (l : list ascii) : N :=
  match l with
  | [] => acc
  | c :: l' => digits_value (10 * acc + N.of_nat (nat_of_ascii c - 48))%N l'
  end.

(** [array_index k]: the number a canonical numeric key stands for
    ("0", "7", "42"; not "", "007", "1.0" or anything above 2^32-2). *)
Definition array_index (k : string) : option N :=
  let l := list_ascii_of_string k in
  match l with
  | [] => None
  | c :: l' =>
      if forallb is_digit l
         && (negb (Ascii.eqb c "0"%char) || match l' with [] => true | _ => false end)
         && (length l <=? 10)%nat
      then let v := digits_value 0 l in
           if (v <=? 4294967294)%N then Some v else None
      else None
  end.

Fixpoint own (o : t) (k : string) : option nat :=
  match o with
  | [] => None
  | (k', v) :: o' => if String.eqb k k' then Some v else own o' k
  end.

Definition keys (o : t) : list string := map fst o.

(** Where a new key goes. *)
Fixpoint insert_index (i : N) (k : string) (v : nat) (o : t) : t :=
  match o with
  | [] => [(k, v)]
  | (k', v') :: o' =>
      match array_index k' with
      | Some j => if (i <? j)%N then (k, v) :: o
                  else (k', v') :: insert_index i k v o'
      | None => (k, v) :: o
      end
  end.

Fixpoint overwrite (k : string) (v : nat) (o : t) : t :=
  match o with
  | [] => []
  | (k', v') :: o' =>
      if String.eqb k k' then (k', v) :: o' else (k', v') :: overwrite k v o'
  end.

(** Names that every plain object inherits. *)
Definition prototype_names : list string :=
  [ "constructor"; "hasOwnProperty"; "isPrototypeOf";
    "propertyIsEnumerable"; "toLocaleString"; "toString"; "valueOf";
    "__defineGetter__"; "__defineSetter__"; "__lookupGetter__";
    "__lookupSetter__"; "__proto__" ].

Definition inherited (k : string) : bool :=
  existsb (String.eqb k) prototype_names.

(** [o[k] = v] for a number [v].  Assigning a number to [__proto__] runs
    the inherited setter, which ignores it. *)
Definition set (o : t) (k : string) (v : nat) : t :=
  if String.eqb k "__proto__" then o
  else match own o k with
       | Some _ => overwrite k v o
       | None =>
           match array_index k with
           | Some i => insert_index i k v o
           | None => o ++ [(k, v)]
           end
       end.

(** [k in o]: an own property or an inherited one. *)
Definition has (o : t) (k : string) : bool :=
  match own o k with
  | Some _ => true
  | None => inherited k
  end.

(** [o[k]]: the own property, else what the prototype gives. *)
Definition get (o : t) (k : string) : value :=
  match own o k with
  | Some v => VNum v
  | None => if inherited k then VInherited k else VUndefined
  end.

End JsObject.

(* ===================================================================== *)
(** ** The syntax tree that [traverse] walks *)

Module Ast.

(** The node kinds the builder can tell apart.  The source of an import
    declaration is kept as its string ([node.source.value]); every kind
    babylon has and that is not listed is an [Other] node. *)
#[warnings="-register-all"] Inductive node :=
| File (program : node)
| Program (body : list node)
| ImportDeclaration (specifiers : list string) (source : string)
| ExpressionStatement (expression : node)
| CallExpression (callee : node) (arguments : list node)
| Identifier (name : string)
| StringLiteral (value : string)
| Other (type : string) (children : list node).

(** [traverse(ast, visitor)]: depth first, a node before its children,
    children left to right; [visit] is the visitor object applied to the
    state it mutates. *)
Fixpoint traverse {S : Type} (visit : node -> S -> S) (n : node) (s : S) : S :=
  let s := visit n s in
  match n with
  | File p => traverse visit p s
  | Program body => fold_left (fun s c => traverse visit c s) body s
  | ImportDeclaration _ _ => s
  | ExpressionStatement e => traverse visit e s
  | CallExpression callee args =>
      fold_left (fun s c => traverse visit c s) args (traverse visit callee s)
  | Identifier _ => s
  | StringLiteral _ => s
  | Other _ children => fold_left (fun s c => traverse visit c s) children s
  end.

(** The nodes of a tree in source order. *)
Fixpoint nodes (n : node) : list node :=
  n :: match n with
       | File p => nodes p
       | Program body => flat_map nodes body
       | ImportDeclaration _ _ => []
       | ExpressionStatement e => nodes e
       | CallExpression callee args => nodes callee ++ flat_map nodes args
       | Identifier _ => []
       | StringLiteral _ => []
       | Other _ children => flat_map nodes children
       end.

(** The sources of the import declarations among a list of nodes. *)
Definition import_sources (l : list node) : list string :=
  flat_map (fun n => match n with
                     | ImportDeclaration _ src => [src]
                     | _ => []
                     end) l.

(** [require('name')] as an expression and as a statement. *)
Definition require_call (name : string) : node :=
  CallExpression (Identifier "require") [StringLiteral name].
Definition require_statement (name : string) : node :=
  ExpressionStatement (require_call name).

End Ast.

(* ===================================================================== *)
(** ** The builder *)

(** What [fs.readFileSync(path, 'utf-8')] does at a path: it finds no entry
    of that name ([ENOENT]), finds a directory ([EISDIR]), returns the text
    of a regular file, or fails in another way with the exception given (a
    path through a regular file gives [ENOTDIR], a NUL byte in the path a
    [TypeError], and so on). *)
Inductive fsnode :=
| NoEntry
| IsDirectory
| Contents (text : string)
| Fails (e : exn).

Module Builder.

(** The object [createModule] returns; [dependenceMapping] is absent until
    the loop of [createDependenceTree] reaches the module. *)
Record module_record := Module_ {
  id : nat;
  code : string;
  dependencies : list string;
  path : string;
  dependenceMapping : option JsObject.t
}.

(** The module list and the global [identifier]. *)
Record state := State {
  moduleList : list module_record;
  identifier : nat
}.

(** The visitor of [createModule]: [dependencies.push(node.source.value)]
    under the key [ImportDeclaration]. *)
Definition visitor (n : Ast.node) (dependencies : list string) : list string :=
  match n with
  | Ast.ImportDeclaration _ source => dependencies ++ [source]
  | _ => dependencies
  end.

Definition with_mapping (o : option JsObject.t) (m : module_record) : module_record :=
  Module_ (id m) (code m) (dependencies m) (path m) o.

(** [module.dependenceMapping[dependencePath] = n] (line 76).  The mapping
    is there when this runs: the loop sets it to [{}] first (line 65). *)
Definition assign (dependencePath : string) (n : nat) (m : module_record) : module_record :=
  with_mapping (option_map (fun o => JsObject.set o dependencePath n) (dependenceMapping m)) m.

Section WithCollaborators.

(** The file system and the babel entry points the builder calls:
    [babylon.parse] ([None]: it throws), [traverse], of which
    [traverse_throws] tells what it throws on a tree when it builds the
    scopes, before any visitor runs (a [TypeError] for a duplicate
    declaration), and [transformFromAst] ([None]: it throws). *)
Variable readFileSync : string -> fsnode.
Variable parse : string -> option Ast.node.
Variable traverse_throws : Ast.node -> option exn.
Variable transformFromAst : Ast.node -> option string.

(** [createModule(path)] (lines 14-49), with the global counter
    [identifier] (line 7) passed in and out. *)
Definition createModule (path : string) (identifier : nat)
  : outcome (module_record * nat) :=
  match readFileSync path with
  | NoEntry => Throw (FsError ENOENT path)
  | IsDirectory => Throw (FsError EISDIR path)
  | Fails e => Throw e
  | Contents fileContent =>
      match parse fileContent with
      | None => Throw (SyntaxError path)
      | Some ast =>
          match traverse_throws ast with
          | Some e => Throw e
          | None =>
              let dependencies := Ast.traverse visitor ast [] in
              let id := identifier in
              let identifier := S identifier in
              match transformFromAst ast with
              | None => Throw (TransformError path)
              | Some code =>
                  Ok (Module_ id code dependencies path None, identifier)
              end
          end
      end
  end.

(** The callback of [module.dependencies.forEach] (lines 69-78), for the
    module at index [i] of the list.  [module] is the object at that index:
    assigning to its [dependenceMapping] changes the list element, and each
    object is in the list once. *)
Definition visit_dependence (i : nat) (dirname dependencePath : string)
           (st : state) : outcome state :=
  let absolutePath := Path.join dirname dependencePath in
  let* (dependenceModule, identifier') :=
    createModule absolutePath (identifier st) in
  Ok (State (alter (assign dependencePath (id dependenceModule)) i (moduleList st)
               ++ [dependenceModule])
            identifier').

Fixpoint forEach (deps : list string) (i : nat) (dirname : string)
         (st : state) : outcome state :=
  match deps with
  | [] => Ok st
  | dependencePath :: deps' =>
      let* st' := visit_dependence i dirname dependencePath st in
      forEach deps' i dirname st'
  end.

(** One turn of [for (const module of moduleList)] (lines 64-80). *)
Definition loop_body (i : nat) (module : module_record) (st : state)
  : outcome state :=
  let st := State (alter (with_mapping (Some JsObject.empty)) i (moduleList st))
                  (identifier st) in
  let dirname := Path.dirname (path module) in
  forEach (dependencies module) i dirname st.

(** The loop: the array iterator keeps an index and stops when it is no
    longer below the current length of the list. *)
Fixpoint for_of (fuel : nat) (i : nat) (st : state) : outcome state :=
  match fuel with
  | O => Timeout
  | S fuel' =>
      match moduleList st !! i with
      | None => Ok st
      | Some module =>
          let* st' := loop_body i module st in
          for_of fuel' (S i) st'
      end
  end.

(** [createDependenceTree(entry)] (lines 56-82): the list it returns and
    the counter it leaves behind. *)
Definition createDependenceTree (fuel : nat) (entry : string) (identifier : nat)
  : outcome (list module_record * nat) :=
  let* (entryModule, identifier') := createModule entry identifier in
  let* st := for_of fuel 0 (State [entryModule] identifier') in
  Ok (moduleList st, Builder.identifier st).

End WithCollaborators.

End Builder.

(* ===================================================================== *)
(** ** The emitter *)

Module Emitter.

Import Builder.

Definition nl : string := String (ascii_of_nat 10) EmptyString.
Definition dquote : string := String (ascii_of_nat 34) EmptyString.

(** [String(n)] for a non-negative integer. *)
Definition number_to_string (n : nat) : string :=
  NilEmpty.string_of_uint (Nat.to_uint n).

Definition hex_digit (n : nat) : ascii :=
  ascii_of_nat (if (n <? 10)%nat then 48 + n else 87 + n).

(** [JSON.stringify] of one character of a string. *)
Definition escape_char (c : ascii) : string :=
  let n := nat_of_ascii c in
  if (n =? 34)%nat then "\" +:+ dquote
  else if (n =? 92)%nat then "\\"
  else if (n =? 8)%nat then "\b"
  else if (n =? 12)%nat then "\f"
  else if (n =? 10)%nat then "\n"
  else if (n =? 13)%nat then "\r"
  else if (n =? 9)%nat then "\t"
  else if (n <? 32)%nat then
    "\u00" +:+ String (hex_digit (n / 16)) (String (hex_digit (n mod 16)) EmptyString)
  else String c EmptyString.

Definition quote (s : string) : string :=
  dquote +:+ String.concat "" (map escape_char (list_ascii_of_string s)) +:+ dquote.

(** [JSON.stringify(dependenceMapping)]; of [undefined] it is [undefined],
    which the template literal prints as the word. *)
Definition stringify (o : option JsObject.t) : string :=
  match o with
  | None => "undefined"
  | Some props =>
      "{" +:+ String.concat ","
                (map (fun kv => quote (fst kv) +:+ ":" +:+ number_to_string (snd kv)) props)
          +:+ "}"
  end.

(** The text one module adds to [modules]. *)
Definition entry (dependence : module_record) : string :=
  number_to_string (id dependence) +:+ ": [" +:+ nl +:+
  "            function(require, module, exports) {" +:+ nl +:+
  "                " +:+ code dependence +:+ nl +:+
  "            }," +:+ nl +:+
  "            " +:+ stringify (dependenceMapping dependence) +:+ nl +:+
  "        ],".

Definition loader_head : string :=
  nl +:+
  "    (function(modules) {" +:+ nl +:+
  "      function require(id) {" +:+ nl +:+
  "        const [fn, dependenceMapping] = modules[id];" +:+ nl +:+
  nl +:+
  "        function requireModule(name) {" +:+ nl +:+
  "          return require(dependenceMapping[name]);" +:+ nl +:+
  "        }" +:+ nl +:+
  nl +:+
  "        const module = { exports : {} };" +:+ nl +:+
  nl +:+
  "        fn(requireModule, module, module.exports);" +:+ nl +:+
  nl +:+
  "        return module.exports;" +:+ nl +:+
  "      }" +:+ nl +:+
  nl +:+
  "      require(0);" +:+ nl +:+
  "    })({".

Definition loader_tail : string := "})" +:+ nl +:+ "  ".

(** [bundle(dependenceTree)] (lines 89-128): [modules] grows by one entry
    per module, then the template is filled in. *)
Definition bundle (dependenceTree : list module_record) : string :=
  let modules :=
    fold_left (fun modules dependence => modules +:+ entry dependence)
              dependenceTree "" in
  loader_head +:+ modules +:+ loader_tail.

(** Gluing texts with nothing in between. *)
Fixpoint glue (l : list string) : string :=
  match l with
  | [] => ""
  | x :: l' => x +:+ glue l'
  end.

End Emitter.

(* ===================================================================== *)
(** ** The loader of the emitted text *)

Module Loader.

(** What the body of a factory can do, as far as the loader sees it: call
    the [require] it was given, always or depending on what it reads
    outside the bundle; touch something outside the bundle (a counter);
    fill its [exports]; or run any code on the counter, which may read it,
    set it, throw or never come back.  A body that catches an exception or
    hands its [require] to code outside is not of this type. *)
Inductive statement :=
| CallRequire (name : string)
| Increment
| SetExport (key : string) (n : nat)
| CallRequireWhen (test : nat -> bool) (name : string)
| Host (f : nat -> outcome nat).

Definition factory := list statement.

(** The argument of the outer function: [{ id: [fn, dependenceMapping], ... }]
    in the order of the literal. *)
Definition table := list (nat * (factory * JsObject.t)).

(** What is outside the bundle: the counter the factories increment, and the
    ids whose factory has been entered, oldest first. *)
Record world := World {
  counter : nat;
  invoked : list nat
}.

(** What an expression of the emitted text evaluates to. *)
Inductive result :=
| Undefined
| Exports (props : JsObject.t).

(** [modules[id]]: of two entries with one key the later one stays; a key
    that is not a number names no entry. *)
Fixpoint entry_of (modules : table) (n : nat) : option (factory * JsObject.t) :=
  match modules with
  | [] => None
  | (k, e) :: modules' =>
      match entry_of modules' n with
      | Some e' => Some e'
      | None => if (k =? n)%nat then Some e else None
      end
  end.

Definition lookup (modules : table) (id : JsObject.value) : option (factory * JsObject.t) :=
  match id with
  | JsObject.VNum n => entry_of modules n
  | JsObject.VUndefined => None
  | JsObject.VInherited _ => None
  end.

(** Running [fn(requireModule, module, module.exports)]. *)
Fixpoint run (requireModule : string -> world -> outcome (result * world))
         (fn : factory) (exports : JsObject.t) (w : world)
  : outcome (JsObject.t * world) :=
  match fn with
  | [] => Ok (exports, w)
  | CallRequire name :: fn' =>
      let* (_, w') := requireModule name w in
      run requireModule fn' exports w'
  | Increment :: fn' =>
      run requireModule fn' exports (World (S (counter w)) (invoked w))
  | SetExport key n :: fn' =>
      run requireModule fn' (JsObject.set exports key n) w
  | CallRequireWhen test name :: fn' =>
      if test (counter w) then
        let* (_, w') := requireModule name w in
        run requireModule fn' exports w'
      else run requireModule fn' exports w
  | Host f :: fn' =>
      let* c := f (counter w) in
      run requireModule fn' exports (World c (invoked w))
  end.

Definition enter (id : JsObject.value) (w : world) : world :=
  match id with
  | JsObject.VNum n => World (counter w) (invoked w ++ [n])
  | _ => w
  end.

(** [require(id)] (lines 110-122); the fuel bounds the depth of nested
    calls. *)
Fixpoint require (fuel : nat) (modules : table) (id : JsObject.value) (w : world)
  : outcome (result * world) :=
  match fuel with
  | O => Timeout
  | S fuel' =>
      match lookup modules id with
      | None => Throw TypeError
      | Some (fn, dependenceMapping) =>
          let requireModule name :=
            require fuel' modules (JsObject.get dependenceMapping name) in
          let exports := JsObject.empty in
          let* (exports', w') := run requireModule fn exports (enter id w) in
          Ok (Exports exports', w')
      end
  end.

Definition requireModule (fuel : nat) (modules : table)
           (dependenceMapping : JsObject.t) (name : string) (w : world)
  : outcome (result * world) :=
  require fuel modules (JsObject.get dependenceMapping name) w.

(** The outer function (lines 109-125): it calls [require(0)] and returns
    nothing. *)
Definition artifact (fuel : nat) (modules : table) (w : world)
  : outcome (result * world) :=
  let* (_, w') := require fuel modules (JsObject.VNum 0) w in
  Ok (Undefined, w').

End Loader.

(* ===================================================================== *)
(** ** The script: build, emit, print *)

Section Script.

Variable readFileSync : string -> fsnode.
Variable parse : string -> option Ast.node.
Variable traverse_throws : Ast.node -> option exn.
Variable transformFromAst : Ast.node -> option string.

(** Lines 130-133: what [console.log] prints, when the build returns. *)
Definition main (fuel : nat) (entry : string) (identifier : nat) : outcome string :=
  let* (graph, _) :=
    Builder.createDependenceTree readFileSync parse traverse_throws transformFromAst
      fuel entry identifier in
  Ok (Emitter.bundle graph).

End Script.

(* ===================================================================== *)
(** ** The emitted argument, as the host reads it *)

Module Host.

(** The object literal that [bundle] writes after the loader (lines
    100-105) has one property per module: the key is the id, the value the
    pair of the function around the code and the table that
    [JSON.stringify] printed.  [behaviour] stands for the engine: it makes a
    factory of a code text.  A module without a table prints [undefined]
    there; a [require] call from its factory then throws a [TypeError], as
    it does here with the empty table. *)
Definition table_entry (behaviour : string -> Loader.factory)
           (m : Builder.module_record) : Loader.factory * JsObject.t :=
  (behaviour (Builder.code m),
   match Builder.dependenceMapping m with
   | Some o => o
   | None => JsObject.empty
   end).

Definition table_of (behaviour : string -> Loader.factory)
           (l : list Builder.module_record) : Loader.table :=
  map (fun m => (Builder.id m, table_entry behaviour m)) l.

End Host.

(* ===================================================================== *)
(** ** Disks and sources for the examples *)

Module Example.

Import Ast.

Fixpoint assoc {A} (k : string) (l : list (string * A)) : option A :=
  match l with
  | [] => None
  | (k', a) :: l' => if String.eqb k k' then Some a else assoc k l'
  end.

(** A disk lists what is at each normalized path relative to the working
    directory. *)
Definition disk := list (string * fsnode).

Definition has_nul (p : string) : bool :=
  existsb (Ascii.eqb Ascii.zero) (list_ascii_of_string p).

(** The directories above a path, nearest first. *)
Fixpoint ancestors (fuel : nat) (p : string) : list string :=
  match fuel with
  | 0 => []
  | S fuel' => let d := Path.dirname p in d :: ancestors fuel' d
  end.

Definition is_file (d : disk) (p : string) : bool :=
  match assoc p d with
  | Some (Contents _) => true
  | _ => false
  end.

Definition strip_slash (p : string) : string :=
  match rev (list_ascii_of_string p) with
  | c :: (_ :: _) as before =>
      if Path.is_slash c then string_of_list_ascii (rev before) else p
  | _ => p
  end.

(** Reading at a path: a NUL byte is refused before the system is asked, a
    path that goes through a regular file is [ENOTDIR], what the disk lists
    is found, and nothing else exists. *)
Definition readFileSync (d : disk) (path : string) : fsnode :=
  if has_nul path then Fails TypeError
  else
    let p := Path.normalize path in
    let q := strip_slash p in
    if existsb (is_file d) (ancestors (String.length q) q)
       || (Path.ends_with_slash p && is_file d q)
    then Fails (FsError ENOTDIR path)
    else
      match assoc q d with
      | Some n => n
      | None => NoEntry
      end.

(** The texts of the examples and the tree babylon builds for each; any
    other text stands for one that does not parse. *)
Definition import_ (source : string) : node := ImportDeclaration [] source.

Definition sources : list (string * node) :=
  [ ("import './a.js';", File (Program [import_ "./a.js"]));
    ("import './b.js';", File (Program [import_ "./b.js"]));
    ("import './d.js';", File (Program [import_ "./d.js"]));
    ("import './x';", File (Program [import_ "./x"]));
    ("import './lib';", File (Program [import_ "./lib"]));
    ("import './missing.js';", File (Program [import_ "./missing.js"]));
    ("import './a.js/x';", File (Program [import_ "./a.js/x"]));
    ("import a from './a.js'; import a from './b.js';",
       File (Program [ImportDeclaration ["a"] "./a.js";
                      ImportDeclaration ["a"] "./b.js"]));
    ("import './a.js'; import './a.js';",
       File (Program [import_ "./a.js"; import_ "./a.js"]));
    ("import './b.js'; import './c.js';",
       File (Program [import_ "./b.js"; import_ "./c.js"]));
    ("import './bad.js'; import './missing.js';",
       File (Program [import_ "./bad.js"; import_ "./missing.js"]));
    ("import '2'; import '1';", File (Program [import_ "2"; import_ "1"]));
    ("require('./math.js');", File (Program [require_statement "./math.js"]));
    ("counter++;", File (Program [Other "ExpressionStatement"
                                    [Other "UpdateExpression" [Identifier "counter"]]]));
    ("", File (Program [])) ].

Definition parse (text : string) : option node := assoc text sources.

(** A stand-in for babel: the builder only copies its output.  An import
    declaration becomes a call of [require], an increment stays. *)
Definition print (n : node) : list string :=
  match n with
  | ImportDeclaration _ source => ["require('" +:+ source +:+ "')"]
  | Other type [Identifier name] =>
      if String.eqb type "UpdateExpression" then [name +:+ "++"] else []
  | _ => []
  end.

Definition transformFromAst (ast : node) : option string :=
  Some (String.concat ";" (flat_map print (nodes ast))).

(** A stand-in for the engine that runs the artifact: what it makes of a
    code text that [transformFromAst] printed. *)
Fixpoint statements (cur : list ascii) (l : list ascii) : list string :=
  match l with
  | [] => [string_of_list_ascii (rev cur)]
  | c :: l' =>
      if Ascii.eqb c ";"%char then string_of_list_ascii (rev cur) :: statements [] l'
      else statements (c :: cur) l'
  end.

Definition statement_of (s : string) : Loader.factory :=
  if String.eqb s "counter++" then [Loader.Increment]
  else if String.prefix "require('" s
          && String.eqb (String.substring (String.length s - 2) 2 s) "')"
       then [Loader.CallRequire (String.substring 9 (String.length s - 11) s)]
       else [].

Definition engine (code : string) : Loader.factory :=
  flat_map statement_of (statements [] (list_ascii_of_string code)).

(** Babel's scopes refuse a name that two import declarations bind. *)
Fixpoint has_duplicate (l : list string) : bool :=
  match l with
  | [] => false
  | x :: l' => existsb (String.eqb x) l' || has_duplicate l'
  end.

Definition bound_names (ast : node) : list string :=
  flat_map (fun n => match n with
                     | ImportDeclaration specifiers _ => specifiers
                     | _ => []
                     end) (nodes ast).

Definition traverse_throws (ast : node) : option exn :=
  if has_duplicate (bound_names ast) then Some TypeError else None.

Definition build (d : disk) (fuel : nat) (entry : string) (identifier : nat) :=
  Builder.createDependenceTree (readFileSync d) parse traverse_throws transformFromAst
    fuel entry identifier.

Definition script (d : disk) (fuel : nat) : outcome string :=
  main (readFileSync d) parse traverse_throws transformFromAst fuel "./example/entry.js" 0.

Definition diamond : disk :=
  [ ("example/entry.js", Contents "import './b.js'; import './c.js';");
    ("example/b.js", Contents "import './d.js';");
    ("example/c.js", Contents "import './d.js';");
    ("example/d.js", Contents "") ].

Definition cycle : disk :=
  [ ("example/entry.js", Contents "import './a.js';");
    ("example/a.js", Contents "import './b.js';");
    ("example/b.js", Contents "import './a.js';") ].

(** One file that imports nothing. *)
Definition single : disk :=
  [ ("example/entry.js", Contents "") ].

(** [./x.js] is there, [./x] is not. *)
Definition extensionless : disk :=
  [ ("example/entry.js", Contents "import './x';");
    ("example/x.js", Contents "") ].

(** [./lib] is a directory with an index file. *)
Definition directory : disk :=
  [ ("example/entry.js", Contents "import './lib';");
    ("example/lib", IsDirectory);
    ("example/lib/index.js", Contents "") ].

(** The entry imports a file that does not parse, then one that is not
    there. *)
Definition broken : disk :=
  [ ("example/entry.js", Contents "import './bad.js'; import './missing.js';");
    ("example/bad.js", Contents "function (") ].

(** The entry imports a file that is not there. *)
Definition missing : disk :=
  [ ("example/entry.js", Contents "import './missing.js';") ].

(** The entry calls [require] and declares no import. *)
Definition commonjs : disk :=
  [ ("example/entry.js", Contents "require('./math.js');");
    ("example/math.js", Contents "") ].

(** The entry imports one file twice; the file increments the counter. *)
Definition twice : disk :=
  [ ("example/entry.js", Contents "import './a.js'; import './a.js';");
    ("example/a.js", Contents "counter++;") ].

(** The entry binds one name in two import declarations. *)
Definition clash : disk :=
  [ ("example/entry.js", Contents "import a from './a.js'; import a from './b.js';");
    ("example/a.js", Contents "");
    ("example/b.js", Contents "") ].

(** The entry imports a path through a regular file. *)
Definition through_file : disk :=
  [ ("example/entry.js", Contents "import './a.js/x';");
    ("example/a.js", Contents "") ].

(** A single module that fills its exports. *)
Definition answer_table : Loader.table :=
  [ (0, ([Loader.SetExport "answer" 42], [])) ].

Definition start : Loader.world := Loader.World 0 [].

(** The list the build returns on the diamond. *)
Definition diamond_tree : list Builder.module_record :=
  Eval vm_compute in
    match build diamond 6 "./example/entry.js" 0 with
    | Ok (l, _) => l
    | _ => []
    end.

(** The list the build returns when the entry imports one file twice, and
    the argument of the loader in the text emitted for it. *)
Definition twice_tree : list Builder.module_record :=
  Eval vm_compute in
    match build twice 4 "./example/entry.js" 0 with
    | Ok (l, _) => l
    | _ => []
    end.

Definition twice_table : Loader.table :=
  Eval vm_compute in Host.table_of engine twice_tree.

(** The module [createModule] makes of the entry that only calls [require]. *)
Definition commonjs_entry : Builder.module_record :=
  Builder.Module_ 0 "" [] "./example/entry.js" None.

End Example.

(* ===================================================================== *)
(** ** The words the properties are stated in *)

Module Graph.

Import Builder.

Section WithCollaborators.

Variable readFileSync : string -> fsnode.
Variable parse : string -> option Ast.node.
Variable traverse_throws : Ast.node -> option exn.
Variable transformFromAst : Ast.node -> option string.

(** What [createModule] makes of the file at a path when nothing throws:
    the specifiers it collects and the code babel returns. *)
Definition source_of (p : string) : option (list string * string) :=
  match readFileSync p with
  | Contents text =>
      match parse text with
      | Some ast =>
          match traverse_throws ast with
          | Some _ => None
          | None =>
              match transformFromAst ast with
              | Some code => Some (Ast.traverse visitor ast [], code)
              | None => None
              end
          end
      | None => None
      end
  | _ => None
  end.

(** What [fs.readFileSync] throws at a path that does not read. *)
Inductive read_error (p : string) : exn -> Prop :=
| read_missing :
    readFileSync p = NoEntry -> read_error p (FsError ENOENT p)
| read_directory :
    readFileSync p = IsDirectory -> read_error p (FsError EISDIR p)
| read_fails e :
    readFileSync p = Fails e -> read_error p e.

(** What [createModule] throws at a path, by the call that throws: the read
    (line 15), [babylon.parse] (line 18), [traverse] (line 26) and
    [transformFromAst] (line 38). *)
Inductive thrown_at (p : string) : exn -> Prop :=
| thrown_read e :
    read_error p e -> thrown_at p e
| thrown_syntax text :
    readFileSync p = Contents text -> parse text = None ->
    thrown_at p (SyntaxError p)
| thrown_scope text ast e :
    readFileSync p = Contents text -> parse text = Some ast ->
    traverse_throws ast = Some e -> thrown_at p e
| thrown_transform text ast :
    readFileSync p = Contents text -> parse text = Some ast ->
    traverse_throws ast = None -> transformFromAst ast = None ->
    thrown_at p (TransformError p).

(** The specifiers a file declares, when it reads and parses. *)
Definition declared (p : string) : option (list string) :=
  match readFileSync p with
  | Contents text =>
      match parse text with
      | Some ast => Some (Ast.traverse visitor ast [])
      | None => None
      end
  | _ => None
  end.

(** A module holds what [createModule] makes of the file at its path. *)
Definition from_file (m : module_record) : Prop :=
  source_of (path m) = Some (dependencies m, code m).

(** The index of the first child of the module at index [k]: the entry and
    the children of all modules before [k] come first. *)
Definition first_child (l : list module_record) (k : nat) : nat :=
  S (sum_list_with (fun m => length (dependencies m)) (take k l)).

(** The object that assigning the specifiers in order, to consecutive ids
    from [b] on, leaves behind. *)
Definition assign_all (deps : list string) (b : nat) (o : JsObject.t) : JsObject.t :=
  fold_left (fun o sn => JsObject.set o (fst sn) (snd sn))
            (combine deps (seq b (length deps))) o.

(** The same, starting from [{}]. *)
Definition assigned (deps : list string) (b : nat) : JsObject.t :=
  assign_all deps b JsObject.empty.

(** The effect of running the callback over [deps] for the module at index
    [i], with the counter at [c]: the module at [i] gets its assignments,
    one child per specifier is appended, nothing else changes. *)
Record extends (i : nat) (dir : string) (deps : list string) (c : nat)
       (l l' : list module_record) : Prop := Extends {
  ext_length : length l' = length l + length deps;
  ext_other : forall k, k < length l -> k <> i -> l' !! k = l !! k;
  ext_self :
    l' !! i =
    (fun m => with_mapping (option_map (assign_all deps c) (dependenceMapping m)) m)
      <$> l !! i;
  ext_child : forall j s, deps !! j = Some s ->
    exists ch, l' !! (length l + j) = Some ch /\ id ch = c + j /\
               path ch = Path.join dir s /\ dependenceMapping ch = None /\
               from_file ch
}.

(** The same, told against the list before the turn. *)
Record turn (i : nat) (m : module_record) (c : nat)
       (l l' : list module_record) : Prop := Turn {
  turn_length : length l' = length l + length (dependencies m);
  turn_other : forall k, k < length l -> k <> i -> l' !! k = l !! k;
  turn_self :
    l' !! i = Some (with_mapping (Some (assigned (dependencies m) c)) m);
  turn_child : forall j s, dependencies m !! j = Some s ->
    exists ch, l' !! (length l + j) = Some ch /\ id ch = c + j /\
               path ch = Path.join (Path.dirname (path m)) s /\
               dependenceMapping ch = None /\ from_file ch
}.

(** [reachable entry p]: [p] is the entry, or the path that [path.join]
    makes of a specifier declared in a reachable file. *)
Inductive reachable (entry : string) : string -> Prop :=
| reach_entry : reachable entry entry
| reach_import p deps s :
    reachable entry p -> declared p = Some deps -> In s deps ->
    reachable entry (Path.join (Path.dirname p) s).

(** [imports p q]: the file at [p] declares a specifier that joins to [q]. *)
Definition imports (p q : string) : Prop :=
  exists deps s, declared p = Some deps /\ In s deps /\
                 q = Path.join (Path.dirname p) s.

(** Walks of one import or more. *)
Inductive chain : string -> string -> Prop :=
| chain_one p q : imports p q -> chain p q
| chain_step p q r : imports p q -> chain q r -> chain p r.

(** What holds of the list whenever the iterator is about to read index
    [i], in a build that started with the counter at [c0]. *)
Record Inv (c0 : nat) (entry : string) (i : nat) (st : state) : Prop := MkInv {
  inv_entry : exists m0, moduleList st !! 0 = Some m0 /\ path m0 = entry;
  inv_ident : identifier st = c0 + length (moduleList st);
  inv_ids : forall k m, moduleList st !! k = Some m -> id m = c0 + k;
  inv_file : forall k m, moduleList st !! k = Some m -> from_file m;
  inv_reach : forall k m, moduleList st !! k = Some m -> reachable entry (path m);
  inv_len : length (moduleList st) = first_child (moduleList st) i;
  inv_le : i <= length (moduleList st);
  inv_done : forall k m, moduleList st !! k = Some m -> k < i ->
    k < first_child (moduleList st) k /\
    dependenceMapping m =
      Some (assigned (dependencies m) (c0 + first_child (moduleList st) k)) /\
    forall j s, dependencies m !! j = Some s ->
      exists ch, moduleList st !! (first_child (moduleList st) k + j) = Some ch /\
                 path ch = Path.join (Path.dirname (path m)) s;
  inv_todo : forall k m, moduleList st !! k = Some m -> i <= k ->
    dependenceMapping m = None
}.

(** A list is complete when the iterator has run off its end. *)
Definition Complete (c0 : nat) (entry : string) (l : list module_record) : Prop :=
  Inv c0 entry (length l) (State l (c0 + length l)).

(** [steps i st i' st']: from index [i] and state [st], turns none of which
    throws lead to index [i'] and state [st']. *)
Inductive steps : nat -> state -> nat -> state -> Prop :=
| steps_refl i st : steps i st i st
| steps_turn i st m st1 i' st' :
    moduleList st !! i = Some m ->
    Builder.loop_body readFileSync parse traverse_throws transformFromAst i m st = Ok st1 ->
    steps (S i) st1 i' st' ->
    steps i st i' st'.

(** [finite_tree n p]: the file at [p] reads, parses and transforms, and so
    does every file its specifiers join to, and so on, with no chain of
    imports from [p] longer than [n] files. *)
Fixpoint finite_tree (n : nat) (p : string) : bool :=
  match n with
  | O => false
  | S n' =>
      match source_of p with
      | Some (deps, _) =>
          forallb (fun s => finite_tree n' (Path.join (Path.dirname p) s)) deps
      | None => false
      end
  end.

(** The number of files in the tree of imports under [p], a file imported
    twice counted twice, followed down to depth [n]. *)
Fixpoint tree_size (n : nat) (p : string) : nat :=
  match n with
  | O => 0
  | S n' =>
      match source_of p with
      | Some (deps, _) =>
          S (sum_list_with (fun s => tree_size n' (Path.join (Path.dirname p) s)) deps)
      | None => 0
      end
  end.

End WithCollaborators.

End Graph.

Import Graph.

(* ===================================================================== *)
(** ** Facts about the builder *)

Section BuilderFacts.

Import Builder.

Variable readFileSync : string -> fsnode.
Variable parse : string -> option Ast.node.
Variable traverse_throws : Ast.node -> option exn.
Variable transformFromAst : Ast.node -> option string.

Abbreviation createModule := (Builder.createModule readFileSync parse traverse_throws transformFromAst).
Abbreviation visit_dependence := (Builder.visit_dependence readFileSync parse traverse_throws transformFromAst).
Abbreviation forEach := (Builder.forEach readFileSync parse traverse_throws transformFromAst).
Abbreviation loop_body := (Builder.loop_body readFileSync parse traverse_throws transformFromAst).
Abbreviation for_of := (Builder.for_of readFileSync parse traverse_throws transformFromAst).
Abbreviation createDependenceTree :=
  (Builder.createDependenceTree readFileSync parse traverse_throws transformFromAst).
Abbreviation source_of := (Graph.source_of readFileSync parse traverse_throws transformFromAst).
Abbreviation thrown_at := (Graph.thrown_at readFileSync parse traverse_throws transformFromAst).
Abbreviation read_error := (Graph.read_error readFileSync).
Abbreviation read_missing := (Graph.read_missing readFileSync).
Abbreviation read_directory := (Graph.read_directory readFileSync).
Abbreviation read_fails := (Graph.read_fails readFileSync).
Abbreviation thrown_read := (Graph.thrown_read readFileSync parse traverse_throws transformFromAst).
Abbreviation thrown_syntax := (Graph.thrown_syntax readFileSync parse traverse_throws transformFromAst).
Abbreviation thrown_scope := (Graph.thrown_scope readFileSync parse traverse_throws transformFromAst).
Abbreviation thrown_transform := (Graph.thrown_transform readFileSync parse traverse_throws transformFromAst).
Abbreviation declared := (Graph.declared readFileSync parse).
Abbreviation from_file := (Graph.from_file readFileSync parse traverse_throws transformFromAst).
Abbreviation extends := (Graph.extends readFileSync parse traverse_throws transformFromAst).
Abbreviation turn := (Graph.turn readFileSync parse traverse_throws transformFromAst).
Abbreviation turn_length := (Graph.turn_length readFileSync parse traverse_throws transformFromAst).
Abbreviation turn_self := (Graph.turn_self readFileSync parse traverse_throws transformFromAst).
Abbreviation turn_child := (Graph.turn_child readFileSync parse traverse_throws transformFromAst).
Abbreviation reachable := (Graph.reachable readFileSync parse).
Abbreviation reach_entry := (Graph.reach_entry readFileSync parse).
Abbreviation reach_import := (Graph.reach_import readFileSync parse).
Abbreviation imports := (Graph.imports readFileSync parse).
Abbreviation chain := (Graph.chain readFileSync parse).
Abbreviation Inv := (Graph.Inv readFileSync parse traverse_throws transformFromAst).
Abbreviation inv_entry := (Graph.inv_entry readFileSync parse traverse_throws transformFromAst).
Abbreviation inv_ident := (Graph.inv_ident readFileSync parse traverse_throws transformFromAst).
Abbreviation inv_ids := (Graph.inv_ids readFileSync parse traverse_throws transformFromAst).
Abbreviation inv_file := (Graph.inv_file readFileSync parse traverse_throws transformFromAst).
Abbreviation inv_reach := (Graph.inv_reach readFileSync parse traverse_throws transformFromAst).
Abbreviation inv_len := (Graph.inv_len readFileSync parse traverse_throws transformFromAst).
Abbreviation inv_le := (Graph.inv_le readFileSync parse traverse_throws transformFromAst).
Abbreviation inv_done := (Graph.inv_done readFileSync parse traverse_throws transformFromAst).
Abbreviation Complete := (Graph.Complete readFileSync parse traverse_throws transformFromAst).
Abbreviation steps := (Graph.steps readFileSync parse traverse_throws transformFromAst).
Abbreviation steps_turn := (Graph.steps_turn readFileSync parse traverse_throws transformFromAst).
Abbreviation finite_tree := (Graph.finite_tree readFileSync parse traverse_throws transformFromAst).
Abbreviation tree_size := (Graph.tree_size readFileSync parse traverse_throws transformFromAst).

Lemma source_declared p deps code :
  source_of p = Some (deps, code) -> declared p = Some deps.
Proof.
  unfold source_of, declared.
  destruct (readFileSync p); try discriminate.
  destruct (parse text); try discriminate.
  destruct (traverse_throws n); try discriminate.
  destruct (transformFromAst n); try discriminate.
  intros [= <- _]. reflexivity.
Qed.

Lemma createModule_Ok p c m c' :
  createModule p c = Ok (m, c') <->
  exists deps code,
    source_of p = Some (deps, code) /\ m = Module_ c code deps p None /\ c' = S c.
Proof.
  unfold Builder.createModule, source_of.
  destruct (readFileSync p); try (split; [discriminate | intros (? & ? & ? & _); discriminate]).
  destruct (parse text); try (split; [discriminate | intros (? & ? & ? & _); discriminate]).
  destruct (traverse_throws n); try (split; [discriminate | intros (? & ? & ? & _); discriminate]).
  destruct (transformFromAst n); try (split; [discriminate | intros (? & ? & ? & _); discriminate]).
  split.
  - intros [= <- <-]. eauto.
  - intros (deps & code & [= <- <-] & -> & ->). reflexivity.
Qed.

Lemma createModule_not_Timeout p c : createModule p c <> Timeout.
Proof.
  unfold Builder.createModule.
  destruct (readFileSync p); try discriminate.
  destruct (parse text); try discriminate.
  destruct (traverse_throws n); try discriminate.
  destruct (transformFromAst n); discriminate.
Qed.

(** Whether and what [createModule] throws depends on the path only. *)
Lemma createModule_Throw p c e :
  createModule p c = Throw e ->
  source_of p = None /\ forall c', createModule p c' = Throw e.
Proof.
  unfold Builder.createModule, source_of.
  destruct (readFileSync p); try (intros [= <-]; split; reflexivity).
  destruct (parse text); try (intros [= <-]; split; reflexivity).
  destruct (traverse_throws n); try (intros [= <-]; split; reflexivity).
  destruct (transformFromAst n); [discriminate|].
  intros [= <-]; split; reflexivity.
Qed.

Lemma createModule_None p c :
  source_of p = None -> exists e, createModule p c = Throw e.
Proof.
  unfold Builder.createModule, source_of.
  destruct (readFileSync p); eauto.
  destruct (parse text); eauto.
  destruct (traverse_throws n); eauto.
  destruct (transformFromAst n); eauto. discriminate.
Qed.

(** The exceptions of [createModule], by cause. *)
Lemma createModule_Throw_cause p c e :
  createModule p c = Throw e ->
  thrown_at p e.
Proof.
  unfold Builder.createModule.
  destruct (readFileSync p) eqn:Hr.
  - intros [= <-]. apply thrown_read, read_missing, Hr.
  - intros [= <-]. apply thrown_read, read_directory, Hr.
  - destruct (parse text) eqn:Hp.
    + destruct (traverse_throws n) eqn:Hs.
      * intros [= <-]. eapply thrown_scope; eassumption.
      * destruct (transformFromAst n) eqn:Ht; [discriminate|].
        intros [= <-]. eapply thrown_transform; eassumption.
    + intros [= <-]. eapply thrown_syntax; eassumption.
  - intros [= <-]. apply thrown_read, read_fails, Hr.
Qed.

(** Conversely each cause makes [createModule] throw. *)
Lemma thrown_at_Throw p c e : thrown_at p e -> createModule p c = Throw e.
Proof.
  unfold Builder.createModule.
  intros [e' [Hr|Hr|e'' Hr]|text Hr Hp|text ast e' Hr Hp Hs|text ast Hr Hp Hs Ht];
    rewrite Hr; try reflexivity; rewrite Hp; try reflexivity;
    rewrite Hs; try reflexivity.
  rewrite Ht. reflexivity.
Qed.

(** *** The module list as a tree laid out breadth first *)

Lemma assign_all_cons s deps b o :
  assign_all (s :: deps) b o = assign_all deps (S b) (JsObject.set o s b).
Proof. reflexivity. Qed.

Lemma first_child_S l k m :
  l !! k = Some m ->
  first_child l (S k) = first_child l k + length (dependencies m).
Proof.
  intros Hm. unfold first_child.
  rewrite (take_S_r _ _ _ Hm), sum_list_with_app. simpl. lia.
Qed.

Lemma first_child_mono l k k' :
  k <= k' -> first_child l k <= first_child l k'.
Proof.
  intros Hk. unfold first_child.
  replace k' with (k + (k' - k)) by lia.
  rewrite <- take_take_drop, sum_list_with_app. lia.
Qed.

Lemma dependencies_with_mapping o m : dependencies (with_mapping o m) = dependencies m.
Proof. reflexivity. Qed.

Lemma first_child_ext l l' k :
  k <= length l ->
  (forall j, j < k -> dependencies <$> l' !! j = dependencies <$> l !! j) ->
  first_child l' k = first_child l k.
Proof.
  induction k as [|k IH]; intros Hk Hd.
  - reflexivity.
  - destruct (lookup_lt_is_Some_2 l k) as [m Hm]; [lia|].
    pose proof (Hd k (Nat.lt_succ_diag_r k)) as Hk'. rewrite Hm in Hk'.
    destruct (l' !! k) as [m'|] eqn:Hm'; [|discriminate].
    injection Hk' as Hk'.
    rewrite (first_child_S _ _ _ Hm), (first_child_S _ _ _ Hm'), Hk'.
    rewrite IH; [reflexivity | lia | intros j Hj; apply Hd; lia].
Qed.

(** *** What one [forEach] does to the list *)

Lemma forEach_Ok deps : forall i dir st st',
  i < length (moduleList st) ->
  forEach deps i dir st = Ok st' ->
  extends i dir deps (identifier st) (moduleList st) (moduleList st') /\
  identifier st' = identifier st + length deps.
Proof.
  induction deps as [|d deps IH]; intros i dir st st' Hi H.
  - injection H as <-. split; [|simpl; lia]. constructor.
    + simpl; lia.
    + reflexivity.
    + destruct (moduleList st !! i) as [m|]; [|reflexivity]. simpl. f_equal.
      unfold assign_all; simpl.
      destruct m as [? ? ? ? [o|]]; reflexivity.
    + intros j s Hj. destruct j; discriminate.
  - simpl in H. unfold Builder.visit_dependence in H.
    destruct (createModule (Path.join dir d) (identifier st)) as [[dm c']| |] eqn:Hc;
      simpl in H; try discriminate.
    apply createModule_Ok in Hc as (deps' & code' & Hsrc & -> & ->).
    set (l := moduleList st) in *. set (c := identifier st) in *.
    set (dm := Module_ c code' deps' (Path.join dir d) None) in *.
    set (l1 := alter (assign d (id dm)) i l ++ [dm]) in *.
    assert (Hl1 : length l1 = S (length l)).
    { unfold l1. rewrite length_app, length_alter. simpl. lia. }
    apply IH in H as [[E1 E2 E3 E4] Hid]; simpl in *; [|lia].
    split; [|lia]. constructor.
    + simpl. lia.
    + intros k Hk Hne. rewrite E2 by lia.
      unfold l1. rewrite lookup_app_l by (rewrite length_alter; lia).
      apply list_lookup_alter_ne. congruence.
    + rewrite E3. unfold l1.
      rewrite lookup_app_l by (rewrite length_alter; lia).
      rewrite list_lookup_alter_eq.
      destruct (l !! i) as [m|]; [|reflexivity]. simpl. f_equal.
      destruct m as [? ? ? ? [o|]]; reflexivity.
    + intros [|j] s Hj.
      * injection Hj as <-. exists dm.
        rewrite Nat.add_0_r, E2 by lia. unfold l1.
        rewrite lookup_app_r by (rewrite length_alter; lia).
        rewrite length_alter, Nat.sub_diag. simpl.
        repeat split; [lia|]. exact Hsrc.
      * destruct (E4 j s Hj) as (ch & Hch & Hidc & Hp & Hm & Hf).
        exists ch. rewrite Hl1 in Hch.
        replace (length l + S j) with (S (length l) + j) by lia.
        repeat split; auto. lia.
Qed.

Lemma forEach_not_Timeout deps : forall i dir st, forEach deps i dir st <> Timeout.
Proof.
  induction deps as [|d deps IH]; intros i dir st; simpl; [discriminate|].
  unfold Builder.visit_dependence.
  destruct (createModule (Path.join dir d) (identifier st)) as [[dm c']| |] eqn:Hc;
    simpl; try discriminate.
  - apply IH.
  - exfalso. exact (createModule_not_Timeout _ _ Hc).
Qed.

(** A throw of [forEach] is the throw of [createModule] for one of the
    specifiers. *)
Lemma forEach_Throw deps : forall i dir st e,
  forEach deps i dir st = Throw e ->
  exists s c, In s deps /\ createModule (Path.join dir s) c = Throw e.
Proof.
  induction deps as [|d deps IH]; intros i dir st e H; simpl in H; [discriminate|].
  unfold Builder.visit_dependence in H.
  destruct (createModule (Path.join dir d) (identifier st)) as [[dm c']| |] eqn:Hc;
    simpl in H; try discriminate.
  - apply IH in H as (s & c & Hs & Hc'). exists s, c. split; [right|]; assumption.
  - injection H as <-. exists d, (identifier st). split; [left; reflexivity | exact Hc].
Qed.

(** *** One turn of the loop *)

Lemma loop_body_Ok i m st st' :
  moduleList st !! i = Some m ->
  loop_body i m st = Ok st' ->
  extends i (Path.dirname (path m)) (dependencies m) (identifier st)
          (<[i := with_mapping (Some JsObject.empty) m]> (moduleList st))
          (moduleList st') /\
  identifier st' = identifier st + length (dependencies m).
Proof.
  intros Hm H. unfold Builder.loop_body in H.
  apply forEach_Ok in H; simpl in *.
  - destruct H as [H Hid]. split; [|exact Hid].
    replace (<[i:=with_mapping (Some JsObject.empty) m]> (moduleList st))
      with (alter (with_mapping (Some JsObject.empty)) i (moduleList st)); [exact H|].
    clear -Hm. revert i Hm. induction (moduleList st) as [|x l IH]; intros [|i] Hm;
      try discriminate; simpl in *.
    + injection Hm as ->. reflexivity.
    + f_equal. apply IH. exact Hm.
  - rewrite length_alter. eapply lookup_lt_Some; eassumption.
Qed.

Lemma loop_body_turn i m st st' :
  moduleList st !! i = Some m ->
  loop_body i m st = Ok st' ->
  turn i m (identifier st) (moduleList st) (moduleList st') /\
  identifier st' = identifier st + length (dependencies m).
Proof.
  intros Hm H. pose proof (lookup_lt_Some _ _ _ Hm) as Hi.
  destruct (loop_body_Ok _ _ _ _ Hm H) as [[E1 E2 E3 E4] Hid].
  rewrite length_insert in *.
  split; [|exact Hid]. constructor.
  - exact E1.
  - intros k Hk Hne. rewrite E2 by assumption.
    apply list_lookup_insert_ne. congruence.
  - rewrite E3, list_lookup_insert_eq by exact Hi. reflexivity.
  - exact E4.
Qed.

(** Every index of the list after a turn is an old index or a child. *)
Lemma turn_lookup i m c l l' k m' :
  l !! i = Some m -> turn i m c l l' -> l' !! k = Some m' ->
  (k < length l /\ k <> i /\ l !! k = Some m') \/
  (k = i /\ m' = with_mapping (Some (assigned (dependencies m) c)) m) \/
  (exists j s, k = length l + j /\ dependencies m !! j = Some s /\
               id m' = c + j /\ path m' = Path.join (Path.dirname (path m)) s /\
               dependenceMapping m' = None /\ from_file m').
Proof.
  intros Hm [T1 T2 T3 T4] Hk.
  pose proof (lookup_lt_Some _ _ _ Hm) as Hi.
  pose proof (lookup_lt_Some _ _ _ Hk) as Hk'.
  destruct (decide (k = i)) as [->|Hne].
  - right; left. split; [reflexivity|]. congruence.
  - destruct (decide (k < length l)) as [Hlt|Hge].
    + left. repeat split; try assumption. rewrite <- T2 by assumption. exact Hk.
    + right; right.
      destruct (lookup_lt_is_Some_2 (dependencies m) (k - length l)) as [s Hs]; [lia|].
      destruct (T4 _ _ Hs) as (ch & Hch & ?).
      replace (length l + (k - length l)) with k in Hch by lia.
      exists (k - length l), s. rewrite Hk in Hch. injection Hch as ->.
      split; [lia|]. split; assumption.
Qed.

(** A turn keeps the path, the specifiers and the code at every old index. *)
Lemma turn_keeps i m c l l' k x :
  l !! i = Some m -> turn i m c l l' -> l !! k = Some x ->
  exists x', l' !! k = Some x' /\ id x' = id x /\ path x' = path x /\
             dependencies x' = dependencies x /\ code x' = code x.
Proof.
  intros Hm [T1 T2 T3 T4] Hk.
  destruct (decide (k = i)) as [->|Hne].
  - rewrite Hm in Hk. injection Hk as <-.
    eexists. split; [exact T3|]. repeat split.
  - exists x. rewrite T2; [auto | eapply lookup_lt_Some; eassumption | exact Hne].
Qed.

(** *** Paths reachable from the entry *)

Lemma reachable_imports entry p q :
  reachable entry p -> imports p q -> reachable entry q.
Proof.
  intros Hp (deps & s & Hd & Hs & ->). eapply reach_import; eassumption.
Qed.

Lemma reachable_chain entry p q :
  reachable entry p -> chain p q -> reachable entry q.
Proof.
  intros Hp Hc. induction Hc as [p q H|p q r H _ IH].
  - eapply reachable_imports; eassumption.
  - apply IH. eapply reachable_imports; eassumption.
Qed.

(** *** The invariant of the loop *)

Lemma Inv_init c0 entry m c' :
  createModule entry c0 = Ok (m, c') -> Inv c0 entry 0 (State [m] c').
Proof.
  intros H. apply createModule_Ok in H as (deps & code & Hsrc & -> & ->).
  constructor; simpl.
  - eexists; split; reflexivity.
  - lia.
  - intros [|k] m [= <-]; simpl. lia.
  - intros [|k] m [= <-]. exact Hsrc.
  - intros [|k] m [= <-]. constructor.
  - reflexivity.
  - lia.
  - intros k m _ Hk. lia.
  - intros [|k] m [= <-] _. reflexivity.
Qed.

Lemma from_file_declared m : from_file m -> declared (path m) = Some (dependencies m).
Proof. intros H. eapply source_declared. exact H. Qed.

Lemma turn_first_child i m c l l' k :
  l !! i = Some m -> turn i m c l l' -> k <= length l ->
  first_child l' k = first_child l k.
Proof.
  intros Hm T Hk. apply first_child_ext; [exact Hk|].
  intros j Hj.
  destruct (lookup_lt_is_Some_2 l j) as [x Hx]; [lia|].
  destruct (turn_keeps _ _ _ _ _ _ _ Hm T Hx) as (x' & Hx' & _ & _ & Hd & _).
  rewrite Hx, Hx'. simpl. congruence.
Qed.

Lemma Inv_turn c0 entry i m st st' :
  Inv c0 entry i st ->
  moduleList st !! i = Some m ->
  loop_body i m st = Ok st' ->
  Inv c0 entry (S i) st'.
Proof.
  intros [I1 I2 I3 I4 I5 I6 I7 I8 I9] Hm H.
  destruct (loop_body_turn _ _ _ _ Hm H) as [T Hid].
  pose proof (lookup_lt_Some _ _ _ Hm) as Hi.
  set (l := moduleList st) in *. set (l' := moduleList st') in *.
  assert (Hfc : forall k, k <= length l -> first_child l' k = first_child l k)
    by (intros; eapply turn_first_child; eassumption).
  pose proof (turn_length _ _ _ _ _ T) as Hlen.
  constructor; fold l'.
  - destruct I1 as (m0 & H0 & Hp).
    destruct (turn_keeps _ _ _ _ _ _ _ Hm T H0) as (x' & Hx' & _ & Hpx & _).
    exists x'. split; [exact Hx' | congruence].
  - lia.
  - intros k x Hx.
    destruct (turn_lookup _ _ _ _ _ _ _ Hm T Hx)
      as [(Hk & Hne & Hold) | [(-> & ->) | (j & s & -> & Hs & Hidx & _)]].
    + eapply I3; eassumption.
    + simpl. eapply I3; eassumption.
    + lia.
  - intros k x Hx.
    destruct (turn_lookup _ _ _ _ _ _ _ Hm T Hx)
      as [(Hk & Hne & Hold) | [(-> & ->) | (j & s & -> & Hs & _ & _ & _ & Hf)]].
    + eapply I4; eassumption.
    + exact (I4 _ _ Hm).
    + exact Hf.
  - intros k x Hx.
    destruct (turn_lookup _ _ _ _ _ _ _ Hm T Hx)
      as [(Hk & Hne & Hold) | [(-> & ->) | (j & s & -> & Hs & _ & Hp & _)]].
    + eapply I5; eassumption.
    + exact (I5 _ _ Hm).
    + rewrite Hp. eapply reach_import.
      * exact (I5 _ _ Hm).
      * apply from_file_declared. exact (I4 _ _ Hm).
      * apply list_elem_of_In. eapply list_elem_of_lookup_2; eassumption.
  - rewrite (first_child_S _ _ _ (turn_self _ _ _ _ _ T)).
    rewrite dependencies_with_mapping, Hfc by lia. lia.
  - lia.
  - intros k x Hx Hk.
    destruct (turn_lookup _ _ _ _ _ _ _ Hm T Hx)
      as [(Hkl & Hne & Hold) | [(-> & ->) | (j & s & -> & _)]]; [| |lia].
    + destruct (I8 _ _ Hold) as (D1 & D2 & D3); [lia|].
      rewrite Hfc by lia. split; [exact D1|]. split; [exact D2|].
      intros j s Hs. destruct (D3 _ _ Hs) as (ch & Hch & Hp).
      destruct (turn_keeps _ _ _ _ _ _ _ Hm T Hch) as (ch' & Hch' & _ & Hp' & _).
      exists ch'. split; [exact Hch' | congruence].
    + rewrite Hfc by lia. rewrite <- I6. simpl.
      split; [exact Hi|]. split; [rewrite I2; reflexivity|].
      intros j s Hs. destruct (turn_child _ _ _ _ _ T _ _ Hs) as (ch & Hch & _ & Hp & _).
      exists ch. split; assumption.
  - intros k x Hx Hk.
    destruct (turn_lookup _ _ _ _ _ _ _ Hm T Hx)
      as [(Hkl & Hne & Hold) | [(-> & ->) | (j & s & -> & _ & _ & _ & Hn & _)]].
    + eapply I9; [eassumption | lia].
    + lia.
    + exact Hn.
Qed.

(** *** The loop as a whole *)

Lemma for_of_Ok fuel : forall c0 entry i st st',
  Inv c0 entry i st ->
  for_of fuel i st = Ok st' ->
  Complete c0 entry (moduleList st') /\
  identifier st' = c0 + length (moduleList st').
Proof.
  induction fuel as [|fuel IH]; intros c0 entry i st st' HI H; [discriminate|].
  simpl in H. destruct (moduleList st !! i) as [m|] eqn:Hm.
  - destruct (loop_body i m st) as [st1| |] eqn:Hb; simpl in H; try discriminate.
    eapply IH; [|exact H]. eapply Inv_turn; eassumption.
  - injection H as <-. apply lookup_ge_None_1 in Hm.
    pose proof (inv_le _ _ _ _ HI) as Hle.
    assert (i = length (moduleList st)) as -> by lia.
    split; [|apply (inv_ident _ _ _ _ HI)].
    unfold Complete. rewrite <- (inv_ident _ _ _ _ HI).
    destruct st; exact HI.
Qed.

(** More fuel does not change an outcome that is not [Timeout]. *)
Lemma for_of_more fuel : forall i st r n,
  for_of fuel i st = r -> r <> Timeout -> for_of (fuel + n) i st = r.
Proof.
  induction fuel as [|fuel IH]; intros i st r n H Hr; [simpl in H; congruence|].
  simpl in *. destruct (moduleList st !! i) as [m|]; [|exact H].
  destruct (loop_body i m st) as [st1| |]; simpl in *; try exact H.
  apply IH; assumption.
Qed.

Lemma loop_body_not_Timeout i m st : loop_body i m st <> Timeout.
Proof. apply forEach_not_Timeout. Qed.

(** What the loop throws is what [createModule] throws for a reachable
    path. *)
Lemma for_of_Throw fuel : forall c0 entry i st e,
  Inv c0 entry i st ->
  for_of fuel i st = Throw e ->
  exists q c, reachable entry q /\ createModule q c = Throw e.
Proof.
  induction fuel as [|fuel IH]; intros c0 entry i st e HI H; [discriminate|].
  simpl in H. destruct (moduleList st !! i) as [m|] eqn:Hm; [|discriminate].
  destruct (loop_body i m st) as [st1| |] eqn:Hb; simpl in H; try discriminate.
  - eapply IH; [|exact H]. eapply Inv_turn; eassumption.
  - injection H as <-. apply forEach_Throw in Hb as (s & c & Hs & Hc).
    exists (Path.join (Path.dirname (path m)) s), c. split; [|exact Hc].
    eapply reach_import.
    + exact (inv_reach _ _ _ _ HI _ _ Hm).
    + apply from_file_declared. exact (inv_file _ _ _ _ HI _ _ Hm).
    + exact Hs.
Qed.

Lemma createDependenceTree_Ok fuel entry c0 l c' :
  createDependenceTree fuel entry c0 = Ok (l, c') ->
  Complete c0 entry l /\ c' = c0 + length l.
Proof.
  unfold Builder.createDependenceTree. intros H.
  destruct (createModule entry c0) as [[m c1]| |] eqn:Hc; simpl in H; try discriminate.
  destruct (for_of fuel 0 (State [m] c1)) as [st| |] eqn:Hf; simpl in H; try discriminate.
  injection H as <- <-.
  eapply for_of_Ok; [|exact Hf]. apply Inv_init. exact Hc.
Qed.

Lemma createDependenceTree_more fuel entry c0 r n :
  createDependenceTree fuel entry c0 = r -> r <> Timeout ->
  createDependenceTree (fuel + n) entry c0 = r.
Proof.
  unfold Builder.createDependenceTree. intros H Hr.
  destruct (createModule entry c0) as [[m c1]| |]; simpl in *; try exact H.
  destruct (for_of fuel 0 (State [m] c1)) as [st| |] eqn:Hf; simpl in H.
  - rewrite (for_of_more _ _ _ _ n Hf) by discriminate. exact H.
  - rewrite (for_of_more _ _ _ _ n Hf) by discriminate. exact H.
  - congruence.
Qed.

Lemma createDependenceTree_Throw fuel entry c0 e :
  createDependenceTree fuel entry c0 = Throw e ->
  exists q c, reachable entry q /\ createModule q c = Throw e.
Proof.
  unfold Builder.createDependenceTree. intros H.
  destruct (createModule entry c0) as [[m c1]| |] eqn:Hc; simpl in H; try discriminate.
  - destruct (for_of fuel 0 (State [m] c1)) as [st| |] eqn:Hf; simpl in H; try discriminate.
    injection H as <-. eapply for_of_Throw; [|exact Hf]. apply Inv_init. exact Hc.
  - injection H as <-. exists entry, c0. split; [constructor | exact Hc].
Qed.

(** *** Complete lists *)

Section CompleteFacts.

Variables (c0 : nat) (entry : string) (l : list module_record).
Hypothesis HC : Complete c0 entry l.

Lemma complete_child k m j s :
  l !! k = Some m -> dependencies m !! j = Some s ->
  k < first_child l k /\
  exists ch, l !! (first_child l k + j) = Some ch /\
             path ch = Path.join (Path.dirname (path m)) s.
Proof.
  intros Hm Hs.
  destruct (inv_done _ _ _ _ HC k m Hm) as (D1 & _ & D3).
  - eapply lookup_lt_Some. exact Hm.
  - split; [exact D1 | exact (D3 _ _ Hs)].
Qed.

Lemma complete_imports k m q :
  l !! k = Some m -> imports (path m) q ->
  exists k' m', k < k' /\ l !! k' = Some m' /\ path m' = q.
Proof.
  intros Hm (deps & s & Hd & Hs & ->).
  pose proof (from_file_declared _ (inv_file _ _ _ _ HC _ _ Hm)) as Hd'.
  rewrite Hd in Hd'. injection Hd' as ->.
  apply list_elem_of_In, list_elem_of_lookup_1 in Hs as [j Hj].
  destruct (complete_child _ _ _ _ Hm Hj) as (Hlt & ch & Hch & Hp).
  exists (first_child l k + j), ch. split; [lia|]. split; assumption.
Qed.

Lemma complete_chain p q : chain p q -> forall k m,
  l !! k = Some m -> path m = p ->
  exists k' m', k < k' /\ l !! k' = Some m' /\ path m' = q.
Proof.
  induction 1 as [p q H|p q r H _ IH]; intros k m Hm Hp; subst p.
  - eapply complete_imports; eassumption.
  - destruct (complete_imports _ _ _ Hm H) as (k1 & m1 & Hlt & Hm1 & Hp1).
    destruct (IH _ _ Hm1 Hp1) as (k2 & m2 & Hlt2 & Hm2 & Hp2).
    exists k2, m2. split; [lia|]. split; assumption.
Qed.

(** Every reachable path has a module in a complete list. *)
Lemma complete_reachable p :
  reachable entry p -> exists k m, l !! k = Some m /\ path m = p.
Proof.
  induction 1 as [|p deps s _ IH Hd Hs].
  - destruct (inv_entry _ _ _ _ HC) as (m0 & H0 & Hp). eauto.
  - destruct IH as (k & m & Hm & <-).
    destruct (complete_imports k m (Path.join (Path.dirname (path m)) s) Hm)
      as (k' & m' & _ & Hm' & Hp'); [|eauto].
    exists deps, s. auto.
Qed.

(** A path on an import cycle would have modules at unboundedly large
    indices. *)
Lemma complete_cycle_far p :
  reachable entry p -> chain p p ->
  forall n, exists k m, n <= k /\ l !! k = Some m /\ path m = p.
Proof.
  intros Hr Hc. induction n as [|n (k & m & Hk & Hm & Hp)].
  - destruct (complete_reachable _ Hr) as (k & m & Hm & Hp).
    exists k, m. split; [lia|]. split; assumption.
  - destruct (complete_chain _ _ Hc _ _ Hm Hp) as (k' & m' & Hlt & Hm' & Hp').
    exists k', m'. split; [lia|]. split; assumption.
Qed.

End CompleteFacts.

(** No list is complete when an import cycle is reachable. *)
Lemma cycle_incomplete c0 entry l p :
  reachable entry p -> chain p p -> ~ Complete c0 entry l.
Proof.
  intros Hr Hc HC.
  destruct (complete_cycle_far _ _ _ HC _ Hr Hc (length l)) as (k & m & Hk & Hm & _).
  apply lookup_lt_Some in Hm. lia.
Qed.

(** No list is complete when a reachable path is not a file that
    [createModule] accepts. *)
Lemma bad_incomplete c0 entry l q :
  reachable entry q -> source_of q = None -> ~ Complete c0 entry l.
Proof.
  intros Hr Hbad HC.
  destruct (complete_reachable _ _ _ HC _ Hr) as (k & m & Hm & <-).
  pose proof (inv_file _ _ _ _ HC _ _ Hm) as Hf. unfold from_file in Hf. congruence.
Qed.

(** *** Turns of the loop, one after the other *)

Lemma steps_trans i st i1 st1 i2 st2 :
  steps i st i1 st1 -> steps i1 st1 i2 st2 -> steps i st i2 st2.
Proof.
  induction 1 as [|i st m sta i1 st1 Hm Hb _ IH]; intros H2; [exact H2|].
  eapply steps_turn; [exact Hm | exact Hb | exact (IH H2)].
Qed.

Lemma steps_le i st i' st' : steps i st i' st' -> i <= i'.
Proof. induction 1; lia. Qed.

Lemma steps_for_of i st i' st' :
  steps i st i' st' ->
  forall fuel, for_of (fuel + (i' - i)) i st = for_of fuel i' st'.
Proof.
  induction 1 as [|i st m sta i1 st1 Hm Hb Hs IH]; intros fuel.
  - rewrite Nat.sub_diag, Nat.add_0_r. reflexivity.
  - pose proof (steps_le _ _ _ _ Hs) as Hle.
    replace (fuel + (i1 - i)) with (S (fuel + (i1 - S i))) by lia.
    simpl. rewrite Hm, Hb. simpl. apply IH.
Qed.

Lemma steps_Inv c0 entry i st i' st' :
  steps i st i' st' -> Inv c0 entry i st -> Inv c0 entry i' st'.
Proof.
  induction 1 as [|i st m sta i1 st1 Hm Hb _ IH]; intros HI; [exact HI|].
  apply IH. eapply Inv_turn; eassumption.
Qed.

Lemma steps_keeps i st i' st' :
  steps i st i' st' -> forall k x,
  moduleList st !! k = Some x ->
  exists x', moduleList st' !! k = Some x' /\ path x' = path x.
Proof.
  induction 1 as [|i st m sta i1 st1 Hm Hb _ IH]; intros k x Hx; [eauto|].
  destruct (loop_body_turn _ _ _ _ Hm Hb) as [T _].
  destruct (turn_keeps _ _ _ _ _ _ _ Hm T Hx) as (x1 & Hx1 & _ & Hp1 & _).
  destruct (IH _ _ Hx1) as (x' & Hx' & Hp'). exists x'. split; [exact Hx' | congruence].
Qed.

(** The loop gets past any index of the list, unless it throws first. *)
Lemma advance c0 entry n : forall i st k,
  S k - i = n ->
  Inv c0 entry i st ->
  k < length (moduleList st) ->
  (exists fuel e, for_of fuel i st = Throw e) \/
  (exists st', steps i st (Nat.max i (S k)) st').
Proof.
  induction n as [|n IH]; intros i st k Hn HI Hk.
  - right. exists st. replace (Nat.max i (S k)) with i by lia. constructor.
  - destruct (lookup_lt_is_Some_2 (moduleList st) i) as [m Hm]; [lia|].
    destruct (loop_body i m st) as [st1| |] eqn:Hb.
    + pose proof (Inv_turn _ _ _ _ _ _ HI Hm Hb) as HI1.
      destruct (loop_body_turn _ _ _ _ Hm Hb) as [T _].
      pose proof (turn_length _ _ _ _ _ T) as Hlen.
      destruct (IH (S i) st1 k) as [(fuel & e & Hf) | (st' & Hs)]; [lia | exact HI1 | lia | |].
      * left. exists (S fuel), e. simpl. rewrite Hm, Hb. exact Hf.
      * right. exists st'. replace (Nat.max i (S k)) with (Nat.max (S i) (S k)) by lia.
        eapply steps_turn; eassumption.
    + left. exists 1, e. simpl. rewrite Hm, Hb. reflexivity.
    + exfalso. exact (loop_body_not_Timeout _ _ _ Hb).
Qed.

(** Every reachable path gets a module, unless the loop throws first. *)
Lemma reach_or_throw c0 entry i st p :
  Inv c0 entry i st ->
  reachable entry p ->
  (exists fuel e, for_of fuel i st = Throw e) \/
  (exists i' st' k m, steps i st i' st' /\ moduleList st' !! k = Some m /\ path m = p).
Proof.
  intros HI Hr. induction Hr as [|p deps s _ IH Hd Hs].
  - right. destruct (inv_entry _ _ _ _ HI) as (m0 & H0 & Hp).
    exists i, st, 0, m0. split; [constructor|]. split; assumption.
  - destruct IH as [Hthrow | (i1 & st1 & k & m & Hst & Hm & <-)]; [left; exact Hthrow|].
    pose proof (steps_Inv _ _ _ _ _ _ Hst HI) as HI1.
    destruct (advance c0 entry _ i1 st1 k eq_refl HI1) as [(fuel & e & Hf) | (st2 & Hst2)].
    + eapply lookup_lt_Some; eassumption.
    + left. exists (fuel + (i1 - i)), e. rewrite (steps_for_of _ _ _ _ Hst). exact Hf.
    + right. pose proof (steps_Inv _ _ _ _ _ _ Hst2 HI1) as HI2.
      destruct (steps_keeps _ _ _ _ Hst2 _ _ Hm) as (m2 & Hm2 & Hp2).
      pose proof (from_file_declared _ (inv_file _ _ _ _ HI2 _ _ Hm2)) as Hd2.
      rewrite Hp2, Hd in Hd2. injection Hd2 as ->.
      apply list_elem_of_In, list_elem_of_lookup_1 in Hs as [j Hj].
      destruct (inv_done _ _ _ _ HI2 _ _ Hm2) as (_ & _ & D3); [lia|].
      destruct (D3 _ _ Hj) as (ch & Hch & Hpc).
      exists (Nat.max i1 (S k)), st2, (first_child (moduleList st2) k + j), ch.
      split; [eapply steps_trans; eassumption|]. split; [exact Hch|].
      rewrite Hpc, Hp2. reflexivity.
Qed.

(** A reachable path that [createModule] rejects makes the build throw. *)
Lemma bad_throws entry c0 q :
  reachable entry q -> source_of q = None ->
  exists fuel e, createDependenceTree fuel entry c0 = Throw e.
Proof.
  intros Hr Hbad. unfold Builder.createDependenceTree.
  destruct (createModule entry c0) as [[m c1]| |] eqn:Hc.
  - pose proof (Inv_init _ _ _ _ Hc) as HI.
    destruct (reach_or_throw _ _ _ _ _ HI Hr)
      as [(fuel & e & Hf) | (i' & st' & k & x & Hst & Hx & Hp)].
    + exists fuel, e. simpl. rewrite Hf. reflexivity.
    + pose proof (inv_file _ _ _ _ (steps_Inv _ _ _ _ _ _ Hst HI) _ _ Hx) as Hf.
      unfold from_file in Hf. congruence.
  - exists 0, e. reflexivity.
  - exfalso. exact (createModule_not_Timeout _ _ Hc).
Qed.

(** *** Finite trees of imports *)

Lemma sum_list_with_ext {A} (f g : A -> nat) (l : list A) :
  (forall x, In x l -> f x = g x) -> sum_list_with f l = sum_list_with g l.
Proof.
  induction l as [|x l IH]; intros H; [reflexivity|]. simpl.
  rewrite (H x (or_introl eq_refl)), IH; [reflexivity|].
  intros y Hy. apply H. right. exact Hy.
Qed.

Lemma sum_list_with_cons {A} (f : A -> nat) (x : A) (l : list A) :
  sum_list_with f (x :: l) = f x + sum_list_with f l.
Proof. reflexivity. Qed.

Lemma sum_list_with_fmap {A B} (f : B -> nat) (g : A -> B) (l : list A) :
  sum_list_with f (g <$> l) = sum_list_with (fun x => f (g x)) l.
Proof. induction l as [|x l IH]; [reflexivity|]. simpl. f_equal. exact IH. Qed.

Lemma finite_tree_inv n p :
  finite_tree n p = true ->
  exists n' deps code,
    n = S n' /\ source_of p = Some (deps, code) /\
    forall s, In s deps ->
              finite_tree n' (Path.join (Path.dirname p) s) = true.
Proof.
  destruct n as [|n']; [discriminate|]. simpl.
  destruct (source_of p) as [[deps code]|] eqn:Hs; [|discriminate].
  intros H. exists n', deps, code. split; [reflexivity|]. split; [reflexivity|].
  intros s Hin. rewrite forallb_forall in H. exact (H s Hin).
Qed.

Lemma finite_tree_S n : forall p,
  finite_tree n p = true -> finite_tree (S n) p = true.
Proof.
  induction n as [|n IH]; intros p H; [discriminate|].
  destruct (finite_tree_inv _ _ H) as (n' & deps & code & [= <-] & Hs & Hch).
  change (match source_of p with
          | Some (deps, _) =>
              forallb (fun s => finite_tree (S n) (Path.join (Path.dirname p) s)) deps
          | None => false
          end = true).
  rewrite Hs. apply forallb_forall. intros s Hin. apply IH, Hch, Hin.
Qed.

Lemma tree_size_S n : forall p,
  finite_tree n p = true -> tree_size (S n) p = tree_size n p.
Proof.
  induction n as [|n IH]; intros p H; [discriminate|].
  destruct (finite_tree_inv _ _ H) as (n' & deps & code & [= <-] & Hs & Hch).
  change (match source_of p with
          | Some (deps, _) =>
              S (sum_list_with
                   (fun s => tree_size (S n) (Path.join (Path.dirname p) s)) deps)
          | None => 0
          end =
          match source_of p with
          | Some (deps, _) =>
              S (sum_list_with
                   (fun s => tree_size n (Path.join (Path.dirname p) s)) deps)
          | None => 0
          end).
  rewrite Hs. f_equal. apply sum_list_with_ext.
  intros s Hin. apply IH, Hch, Hin.
Qed.

Lemma tree_size_unfold n p deps code :
  source_of p = Some (deps, code) ->
  tree_size (S n) p =
  S (sum_list_with (fun s => tree_size n (Path.join (Path.dirname p) s)) deps).
Proof.
  intros Hs.
  change (match source_of p with
          | Some (deps, _) =>
              S (sum_list_with
                   (fun s => tree_size n (Path.join (Path.dirname p) s)) deps)
          | None => 0
          end = S (sum_list_with
                     (fun s => tree_size n (Path.join (Path.dirname p) s)) deps)).
  rewrite Hs. reflexivity.
Qed.

Lemma forEach_good deps : forall i dir st,
  (forall s, In s deps -> source_of (Path.join dir s) <> None) ->
  exists st', forEach deps i dir st = Ok st'.
Proof.
  induction deps as [|d deps IH]; intros i dir st H; [eexists; reflexivity|].
  simpl. unfold Builder.visit_dependence.
  destruct (source_of (Path.join dir d)) as [[ds code]|] eqn:Hs.
  - rewrite (proj2 (createModule_Ok (Path.join dir d) (identifier st) _ _)
               (ex_intro _ ds (ex_intro _ code (conj Hs (conj eq_refl eq_refl))))).
    simpl. apply IH. intros s Hin. apply H. right. exact Hin.
  - exfalso. apply (H d); [left; reflexivity | exact Hs].
Qed.

(** After a turn the paths are the old ones, then the joined specifiers. *)
Lemma turn_paths i m c l l' :
  l !! i = Some m -> turn i m c l l' ->
  path <$> l' =
  (path <$> l) ++ (Path.join (Path.dirname (path m)) <$> dependencies m).
Proof.
  intros Hm T. apply list_eq. intros k.
  rewrite list_lookup_fmap.
  destruct (decide (k < length l)) as [Hlt|Hge].
  - rewrite lookup_app_l by (rewrite length_fmap; exact Hlt).
    destruct (lookup_lt_is_Some_2 l k Hlt) as [x Hx].
    destruct (turn_keeps _ _ _ _ _ _ _ Hm T Hx) as (x' & Hx' & _ & Hp & _).
    rewrite list_lookup_fmap, Hx, Hx'. simpl. congruence.
  - rewrite lookup_app_r by (rewrite length_fmap; lia).
    rewrite length_fmap, list_lookup_fmap.
    destruct (dependencies m !! (k - length l)) as [s|] eqn:Hs.
    + destruct (turn_child _ _ _ _ _ T _ _ Hs) as (ch & Hch & _ & Hp & _).
      replace (length l + (k - length l)) with k in Hch by lia.
      rewrite Hch. simpl. congruence.
    + apply lookup_ge_None_1 in Hs.
      rewrite (lookup_ge_None_2 l' k); [reflexivity|].
      rewrite (turn_length _ _ _ _ _ T). lia.
Qed.

(** The loop ends after as many turns as the trees under the modules still
    to be read have files. *)
Lemma for_of_finite c0 entry n d : forall i st,
  Inv c0 entry i st ->
  (forall k m, moduleList st !! k = Some m -> i <= k ->
               finite_tree n (path m) = true) ->
  sum_list_with (tree_size n) (drop i (path <$> moduleList st)) = d ->
  exists st', for_of (S d) i st = Ok st' /\ length (moduleList st') = i + d.
Proof.
  induction d as [|d IH]; intros i st HI Hfin Hsum.
  - destruct (moduleList st !! i) as [m|] eqn:Hm.
    + exfalso. pose proof (Hfin _ _ Hm (Nat.le_refl i)) as Hf.
      destruct (finite_tree_inv _ _ Hf) as (n' & deps & code & -> & Hs & _).
      rewrite (drop_S _ (path m)) in Hsum
        by (rewrite list_lookup_fmap, Hm; reflexivity).
      rewrite sum_list_with_cons, (tree_size_unfold _ _ _ _ Hs) in Hsum. lia.
    + exists st. simpl. rewrite Hm. split; [reflexivity|].
      apply lookup_ge_None_1 in Hm. pose proof (inv_le _ _ _ _ HI). lia.
  - destruct (moduleList st !! i) as [m|] eqn:Hm.
    + pose proof (Hfin _ _ Hm (Nat.le_refl i)) as Hf.
      destruct (finite_tree_inv _ _ Hf) as (n' & deps & code & -> & Hs & Hch).
      pose proof (inv_file _ _ _ _ HI _ _ Hm) as Hfile.
      unfold Graph.from_file in Hfile. rewrite Hs in Hfile.
      injection Hfile as Hdeps Hcode. subst deps.
      destruct (forEach_good (dependencies m) i (Path.dirname (path m))
                  (State (alter (with_mapping (Some JsObject.empty)) i (moduleList st))
                         (identifier st))) as [st1 Hb].
      { intros s Hin Hnone. apply Hch in Hin.
        destruct (finite_tree_inv _ _ Hin) as (? & ? & ? & _ & Hs' & _). congruence. }
      change (loop_body i m st = Ok st1) in Hb.
      pose proof (Inv_turn _ _ _ _ _ _ HI Hm Hb) as HI1.
      destruct (loop_body_turn _ _ _ _ Hm Hb) as [T _].
      pose proof (turn_paths _ _ _ _ _ Hm T) as Hpaths.
      pose proof (lookup_lt_Some _ _ _ Hm) as Hi.
      destruct (IH (S i) st1 HI1) as (st' & Hrun & Hlen).
      * intros k x Hx Hk.
        destruct (turn_lookup _ _ _ _ _ _ _ Hm T Hx)
          as [(Hkl & Hne & Hold) | [(-> & _) | (j & s & -> & Hs' & _ & Hp & _)]].
        -- apply (Hfin _ _ Hold). lia.
        -- lia.
        -- rewrite Hp. apply finite_tree_S, Hch, list_elem_of_In.
           eapply list_elem_of_lookup_2. exact Hs'.
      * rewrite Hpaths, drop_app_le by (rewrite length_fmap; lia).
        rewrite sum_list_with_app, sum_list_with_fmap.
        rewrite (drop_S _ (path m)) in Hsum
          by (rewrite list_lookup_fmap, Hm; reflexivity).
        rewrite sum_list_with_cons, (tree_size_unfold _ _ _ _ Hs) in Hsum.
        rewrite (sum_list_with_ext
                   (fun s => tree_size (S n') (Path.join (Path.dirname (path m)) s))
                   (fun s => tree_size n' (Path.join (Path.dirname (path m)) s))).
        -- lia.
        -- intros s Hin. apply tree_size_S, Hch, Hin.
      * exists st'. split; [|lia].
        change (for_of (S (S d)) i st) with
          (match moduleList st !! i with
           | None => Ok st
           | Some module => let* st' := loop_body i module st in for_of (S d) (S i) st'
           end).
        rewrite Hm, Hb. exact Hrun.
    + exfalso. rewrite drop_ge in Hsum; [discriminate|].
      rewrite length_fmap. apply lookup_ge_None_1. exact Hm.
Qed.

(** On a finite tree the build returns, after one turn per file. *)
Lemma finite_builds c0 entry n :
  finite_tree n entry = true ->
  exists l,
    createDependenceTree (S (tree_size n entry)) entry c0
    = Ok (l, c0 + tree_size n entry) /\
    length l = tree_size n entry.
Proof.
  intros Hf. destruct (finite_tree_inv _ _ Hf) as (n' & deps & code & -> & Hs & _).
  unfold Builder.createDependenceTree.
  rewrite (proj2 (createModule_Ok entry c0 _ _)
             (ex_intro _ deps (ex_intro _ code (conj Hs (conj eq_refl eq_refl))))).
  set (m0 := Module_ c0 code deps entry None).
  assert (HI : Inv c0 entry 0 (State [m0] (S c0))).
  { apply Inv_init.
    exact (proj2 (createModule_Ok entry c0 _ _)
             (ex_intro _ deps (ex_intro _ code (conj Hs (conj eq_refl eq_refl))))). }
  destruct (for_of_finite c0 entry (S n') (tree_size (S n') entry) 0 _ HI)
    as (st' & Hrun & Hlen).
  - intros [|k] m [= <-] _. exact Hf.
  - simpl. lia.
  - exists (moduleList st'). cbn [bind]. rewrite Hrun. cbn [bind].
    destruct (for_of_Ok _ _ _ _ _ _ HI Hrun) as [_ Hid].
    rewrite Hid, Hlen. split; reflexivity.
Qed.

(** In a complete list the tree under a module is finite: all its files
    are modules further on in the list. *)
Lemma complete_finite c0 entry l :
  Complete c0 entry l ->
  forall h k m, l !! k = Some m -> length l - k <= h ->
                finite_tree h (path m) = true.
Proof.
  intros HC. induction h as [|h IH]; intros k m Hm Hh.
  - apply lookup_lt_Some in Hm. lia.
  - pose proof (inv_file _ _ _ _ HC _ _ Hm) as Hfile.
    change (match source_of (path m) with
            | Some (deps, _) =>
                forallb (fun s => finite_tree h (Path.join (Path.dirname (path m)) s)) deps
            | None => false
            end = true).
    unfold Graph.from_file in Hfile. cbn [moduleList] in Hfile. rewrite Hfile.
    apply forallb_forall. intros s Hin.
    apply list_elem_of_In, list_elem_of_lookup_1 in Hin as [j Hj].
    destruct (complete_child _ _ _ HC _ _ _ _ Hm Hj) as (Hlt & ch & Hch & Hp).
    rewrite <- Hp. apply (IH _ _ Hch).
    apply lookup_lt_Some in Hch. lia.
Qed.

(** The children of the modules before [b] fill the indices from 1 up to
    the first child of [b]. *)
Lemma first_child_cover (l : list module_record) b : forall k,
  1 <= k -> k < first_child l b ->
  exists p, p < b /\ first_child l p <= k < first_child l (S p).
Proof.
  induction b as [|b IH]; intros k Hk Hlt.
  - unfold first_child in Hlt. simpl in Hlt. lia.
  - destruct (decide (k < first_child l b)) as [Hlt'|Hge].
    + destruct (IH k Hk Hlt') as (p & Hp & Hr). exists p. split; [lia | exact Hr].
    + exists b. split; lia.
Qed.

(** Every module but the entry is the child of a module before it. *)
Lemma complete_parent c0 entry l k m :
  Complete c0 entry l -> l !! k = Some m -> 1 <= k ->
  exists p parent j s,
    p < k /\ l !! p = Some parent /\ dependencies parent !! j = Some s /\
    k = first_child l p + j /\
    path m = Path.join (Path.dirname (path parent)) s.
Proof.
  intros HC Hm Hk. pose proof (lookup_lt_Some _ _ _ Hm) as Hlt.
  pose proof (inv_len _ _ _ _ HC) as Hlen. cbn [moduleList] in Hlen.
  destruct (first_child_cover l (length l) k Hk) as (p & Hp & Hlo & Hhi); [lia|].
  destruct (lookup_lt_is_Some_2 l p Hp) as [parent Hparent].
  rewrite (first_child_S _ _ _ Hparent) in Hhi.
  destruct (lookup_lt_is_Some_2 (dependencies parent) (k - first_child l p))
    as [s Hs]; [lia|].
  destruct (complete_child _ _ _ HC _ _ _ _ Hparent Hs) as (Hpk & ch & Hch & Hpath).
  replace (first_child l p + (k - first_child l p)) with k in Hch by lia.
  rewrite Hm in Hch. injection Hch as <-.
  exists p, parent, (k - first_child l p), s.
  split; [lia|]. split; [exact Hparent|]. split; [exact Hs|]. split; [lia | exact Hpath].
Qed.

(** Two complete lists for one entry have the same paths at the same
    indices, whatever the counters they started from. *)
Lemma complete_same_paths c0 c1 entry l l' :
  Complete c0 entry l -> Complete c1 entry l' ->
  forall k m, l !! k = Some m ->
    exists m', l' !! k = Some m' /\ path m' = path m /\
               dependencies m' = dependencies m /\ code m' = code m.
Proof.
  intros HC HC'.
  assert (Hsame : forall x x', from_file x -> from_file x' -> path x' = path x ->
                               dependencies x' = dependencies x /\ code x' = code x).
  { intros x x' Hx Hx' Hp. unfold Graph.from_file in *. rewrite Hp, Hx in Hx'.
    injection Hx' as -> ->. split; reflexivity. }
  induction k as [k IH] using lt_wf_ind. intros m Hm.
  destruct k as [|k].
  - destruct (inv_entry _ _ _ _ HC) as (m0 & Hm0 & Hp0).
    destruct (inv_entry _ _ _ _ HC') as (m0' & Hm0' & Hp0').
    cbn [moduleList] in Hm0, Hm0'. rewrite Hm in Hm0. injection Hm0 as <-.
    exists m0'. split; [exact Hm0'|]. split; [congruence|].
    apply Hsame; [exact (inv_file _ _ _ _ HC _ _ Hm) |
                  exact (inv_file _ _ _ _ HC' _ _ Hm0') | congruence].
  - destruct (complete_parent _ _ _ _ _ HC Hm) as (p & parent & j & s & Hp & Hpar & Hs & Hk & Hpath);
      [lia|].
    destruct (IH p Hp parent Hpar) as (parent' & Hpar' & Hpp & Hpd & _).
    assert (Hfc : first_child l' p = first_child l p).
    { apply first_child_ext; [apply lookup_lt_Some in Hpar; lia|].
      intros i Hi.
      destruct (lookup_lt_is_Some_2 l i) as [x Hx];
        [apply lookup_lt_Some in Hpar; lia|].
      destruct (IH i ltac:(lia) x Hx) as (x' & Hx' & _ & Hd & _).
      rewrite Hx, Hx'. simpl. congruence. }
    rewrite <- Hpd in Hs.
    destruct (complete_child _ _ _ HC' _ _ _ _ Hpar' Hs) as (_ & ch & Hch & Hpc).
    rewrite Hfc, <- Hk in Hch.
    exists ch. split; [exact Hch|].
    assert (Hpm : path ch = path m) by congruence.
    split; [exact Hpm|].
    apply Hsame; [exact (inv_file _ _ _ _ HC _ _ Hm) |
                  exact (inv_file _ _ _ _ HC' _ _ Hch) | exact Hpm].
Qed.

End BuilderFacts.

(* ===================================================================== *)
(** ** Facts about objects *)

Section ObjectFacts.

Import JsObject.

Lemma own_overwrite k v o k' :
  own (overwrite k v o) k' =
  if String.eqb k' k then option_map (fun _ => v) (own o k) else own o k'.
Proof.
  induction o as [|[k0 v0] o IH]; simpl.
  - destruct (String.eqb k' k); reflexivity.
  - destruct (String.eqb k k0) eqn:E0; simpl.
    + apply String.eqb_eq in E0 as <-.
      destruct (String.eqb k' k); reflexivity.
    + rewrite IH. destruct (String.eqb k' k) eqn:E1.
      * apply String.eqb_eq in E1 as ->. rewrite E0. reflexivity.
      * reflexivity.
Qed.

Lemma own_insert_index i k v o k' :
  own o k = None ->
  own (insert_index i k v o) k' = if String.eqb k' k then Some v else own o k'.
Proof.
  induction o as [|[k0 v0] o IH]; simpl; intros Hk.
  - reflexivity.
  - destruct (String.eqb k k0) eqn:E0; [discriminate|].
    assert (Hcons : own ((k, v) :: (k0, v0) :: o) k' =
                    if String.eqb k' k then Some v
                    else if String.eqb k' k0 then Some v0 else own o k')
      by reflexivity.
    destruct (array_index k0) as [j|]; [destruct (i <? j)%N|]; try exact Hcons.
    simpl. rewrite (IH Hk).
    destruct (String.eqb k' k0) eqn:E1; [|reflexivity].
    apply String.eqb_eq in E1 as ->. rewrite String.eqb_sym, E0. reflexivity.
Qed.

Lemma own_snoc k v o k' :
  own (o ++ [(k, v)]) k' =
  match own o k' with
  | Some x => Some x
  | None => if String.eqb k' k then Some v else None
  end.
Proof.
  induction o as [|[k0 v0] o IH]; simpl; [reflexivity|].
  destruct (String.eqb k' k0); [reflexivity | exact IH].
Qed.

(** Reading back after an assignment. *)
Lemma own_set o k v k' :
  k <> "__proto__" ->
  own (set o k v) k' = if String.eqb k' k then Some v else own o k'.
Proof.
  intros Hk. unfold set.
  destruct (String.eqb k "__proto__") eqn:E; [apply String.eqb_eq in E; contradiction|].
  destruct (own o k) as [x|] eqn:Ho.
  - rewrite own_overwrite, Ho. reflexivity.
  - destruct (array_index k).
    + apply own_insert_index. exact Ho.
    + rewrite own_snoc. destruct (String.eqb k' k) eqn:E1.
      * apply String.eqb_eq in E1 as ->. rewrite Ho. reflexivity.
      * destruct (own o k'); reflexivity.
Qed.

Lemma set_proto o v : set o "__proto__" v = o.
Proof. reflexivity. Qed.

(** An assignment adds at most its own key, with its own value. *)
Lemma own_set_inv o k v k' n :
  own (set o k v) k' = Some n -> own o k' = Some n \/ (k' = k /\ n = v).
Proof.
  destruct (String.eqb k "__proto__") eqn:E.
  - apply String.eqb_eq in E as ->. rewrite set_proto. auto.
  - apply String.eqb_neq in E. rewrite own_set by exact E.
    destruct (String.eqb k' k) eqn:E1.
    + apply String.eqb_eq in E1. intros [= <-]. auto.
    + auto.
Qed.

Lemma own_keys o k : In k (keys o) <-> exists v, own o k = Some v.
Proof.
  induction o as [|[k0 v0] o IH]; simpl.
  - split; [intros [] | intros [? [=]]].
  - destruct (String.eqb k k0) eqn:E.
    + apply String.eqb_eq in E. split; eauto.
    + apply String.eqb_neq in E. rewrite IH. split; [|auto].
      intros [Heq | H]; [congruence | exact H].
Qed.

Lemma get_own o k n : get o k = VNum n <-> own o k = Some n.
Proof.
  unfold get. destruct (own o k).
  - split; intros [= ->]; reflexivity.
  - destruct (inherited k); split; discriminate.
Qed.

End ObjectFacts.

(** *** The object a turn leaves in [dependenceMapping] *)

Section AssignedFacts.

Import JsObject.

(** Its values are ids handed out during the turn, its keys specifiers. *)
Lemma own_assign_all deps : forall b o k n,
  own (assign_all deps b o) k = Some n ->
  own o k = Some n \/ (In k deps /\ b <= n < b + length deps).
Proof.
  induction deps as [|d deps IH]; intros b o k n H.
  - left. exact H.
  - rewrite assign_all_cons in H. apply IH in H as [H | [Hin Hn]].
    + apply own_set_inv in H as [H | [-> ->]]; [left; exact H|].
      right. split; [left; reflexivity | simpl; lia].
    + right. split; [right; exact Hin | simpl; lia].
Qed.

Lemma own_assigned deps b k n :
  own (assigned deps b) k = Some n -> In k deps /\ b <= n < b + length deps.
Proof.
  intros H. apply own_assign_all in H as [H | H]; [discriminate | exact H].
Qed.

Lemma own_assign_all_notin deps : forall b o k,
  ~ In k deps -> own (assign_all deps b o) k = own o k.
Proof.
  induction deps as [|d deps IH]; intros b o k Hk; [reflexivity|].
  rewrite assign_all_cons, IH by (intros H; apply Hk; right; exact H).
  destruct (String.eqb d "__proto__") eqn:E.
  - apply String.eqb_eq in E as ->. reflexivity.
  - apply String.eqb_neq in E. rewrite own_set by exact E.
    destruct (String.eqb k d) eqn:E1; [|reflexivity].
    apply String.eqb_eq in E1. exfalso. apply Hk. left. congruence.
Qed.

(** A specifier reads back the id given at its last occurrence. *)
Lemma own_assign_all_last deps : forall b o j s,
  deps !! j = Some s ->
  (forall j', j < j' -> deps !! j' <> Some s) ->
  s <> "__proto__" ->
  own (assign_all deps b o) s = Some (b + j).
Proof.
  induction deps as [|d deps IH]; intros b o j s Hj Hlast Hs; [discriminate|].
  rewrite assign_all_cons. destruct j as [|j]; simpl in Hj.
  - injection Hj as ->. rewrite own_assign_all_notin.
    + rewrite own_set, String.eqb_refl by exact Hs. f_equal. lia.
    + intros Hin. apply list_elem_of_In, list_elem_of_lookup_1 in Hin as [j' Hj'].
      apply (Hlast (S j')); [lia | exact Hj'].
  - rewrite (IH (S b) _ j s Hj); [f_equal; lia | | exact Hs].
    intros j' Hlt. apply (Hlast (S j')). lia.
Qed.

(** The id a key holds was given at one of its occurrences. *)
Lemma own_assign_all_index deps : forall b o k n,
  own (assign_all deps b o) k = Some n ->
  own o k = Some n \/ exists j, deps !! j = Some k /\ n = b + j.
Proof.
  induction deps as [|d deps IH]; intros b o k n H.
  - left. exact H.
  - rewrite assign_all_cons in H. apply IH in H as [H | (j & Hj & ->)].
    + apply own_set_inv in H as [H | [-> ->]]; [left; exact H|].
      right. exists 0. split; [reflexivity | lia].
    + right. exists (S j). split; [exact Hj | lia].
Qed.

(** A member of a list has a last occurrence. *)
Lemma last_occurrence (s : string) (deps : list string) :
  In s deps ->
  exists j, deps !! j = Some s /\ forall j', j < j' -> deps !! j' <> Some s.
Proof.
  induction deps as [|d deps IH]; intros Hin; [destruct Hin|].
  destruct (in_dec string_dec s deps) as [Hin'|Hnot].
  - destruct (IH Hin') as (j & Hj & Hlast). exists (S j). split; [exact Hj|].
    intros [|j'] Hlt; [lia|]. apply Hlast. lia.
  - destruct Hin as [->|Hin]; [|contradiction].
    exists 0. split; [reflexivity|].
    intros [|j'] Hlt Hj'; [lia|]. apply Hnot.
    apply list_elem_of_In. eapply list_elem_of_lookup_2. exact Hj'.
Qed.

End AssignedFacts.

(* ===================================================================== *)
(** ** Facts about the traversal *)

Section AstFacts.

Import Ast.

(** Induction over trees whose children come in lists. *)
Section NodeInduction.

Variable P : node -> Prop.
Hypothesis HFile : forall p, P p -> P (File p).
Hypothesis HProgram : forall body, Forall P body -> P (Program body).
Hypothesis HImport : forall specifiers source, P (ImportDeclaration specifiers source).
Hypothesis HStatement : forall e, P e -> P (ExpressionStatement e).
Hypothesis HCall : forall callee args, P callee -> Forall P args ->
                                        P (CallExpression callee args).
Hypothesis HIdentifier : forall name, P (Identifier name).
Hypothesis HString : forall value, P (StringLiteral value).
Hypothesis HOther : forall type children, Forall P children -> P (Other type children).

Lemma node_induction (n : node) : P n.
Proof.
  revert n.
  exact (fix go (n : node) : P n :=
    let all := fix all (l : list node) : Forall P l :=
      match l with
      | [] => @List.Forall_nil _ P
      | x :: l' => @List.Forall_cons _ P x l' (go x) (all l')
      end in
    match n with
    | File p => HFile p (go p)
    | Program body => HProgram body (all body)
    | ImportDeclaration specifiers source => HImport specifiers source
    | ExpressionStatement e => HStatement e (go e)
    | CallExpression callee args => HCall callee args (go callee) (all args)
    | Identifier name => HIdentifier name
    | StringLiteral value => HString value
    | Other type children => HOther type children (all children)
    end).
Qed.

End NodeInduction.

Lemma traverse_children (l : list node) :
  Forall (fun n => forall acc,
            traverse Builder.visitor n acc = acc ++ import_sources (nodes n)) l ->
  forall acc,
    fold_left (fun s c => traverse Builder.visitor c s) l acc =
    acc ++ import_sources (flat_map nodes l).
Proof.
  induction 1 as [|n l Hn _ IH]; intros acc; simpl.
  - rewrite app_nil_r. reflexivity.
  - rewrite IH, Hn. unfold import_sources. rewrite flat_map_app, app_assoc. reflexivity.
Qed.

(** The visitor collects the sources of the import declarations, in source
    order, and nothing else. *)
Lemma traverse_visitor n : forall acc,
  traverse Builder.visitor n acc = acc ++ import_sources (nodes n).
Proof.
  induction n using node_induction; intros acc; simpl.
  - rewrite IHn. reflexivity.
  - apply traverse_children. assumption.
  - reflexivity.
  - rewrite IHn. reflexivity.
  - rewrite (traverse_children _ H), IHn.
    unfold import_sources. rewrite flat_map_app, app_assoc. reflexivity.
  - rewrite app_nil_r. reflexivity.
  - rewrite app_nil_r. reflexivity.
  - apply traverse_children. assumption.
Qed.

Lemma import_sources_none (l : list node) :
  (forall x specifiers source, In x l -> x <> ImportDeclaration specifiers source) ->
  import_sources l = [].
Proof.
  induction l as [|x l IH]; intros H; [reflexivity|].
  unfold import_sources in *. simpl. rewrite IH.
  - destruct x; try reflexivity.
    exfalso. apply (H (ImportDeclaration specifiers source) specifiers source);
      [left|]; reflexivity.
  - intros y sp src Hy. apply H. right. exact Hy.
Qed.

End AstFacts.

(* ===================================================================== *)
(** ** Facts about the loader *)

Section LoaderFacts.

Import JsObject Loader.

(** The log of entered factories only grows. *)
Lemma run_invoked (req : string -> world -> outcome (result * world)) :
  (forall name w r w', req name w = Ok (r, w') ->
                       exists di, invoked w' = invoked w ++ di) ->
  forall fn exports w e w',
    run req fn exports w = Ok (e, w') -> exists di, invoked w' = invoked w ++ di.
Proof.
  intros Hreq fn.
  induction fn as [|[name| |key n|test name|f] fn IH]; intros exports w e w' H;
    cbn [run] in H.
  - injection H as _ <-. exists []. rewrite app_nil_r. reflexivity.
  - destruct (req name w) as [[r1 w1]| |] eqn:Hr; cbn [bind] in H; cbv beta iota in H; try discriminate.
    destruct (Hreq _ _ _ _ Hr) as [d1 E1]. destruct (IH _ _ _ _ H) as [d2 E2].
    exists (d1 ++ d2). rewrite E2, E1, app_assoc. reflexivity.
  - destruct (IH _ _ _ _ H) as [d2 E2]. exists d2. exact E2.
  - destruct (IH _ _ _ _ H) as [d2 E2]. exists d2. exact E2.
  - destruct (test (counter w)).
    + destruct (req name w) as [[r1 w1]| |] eqn:Hr; cbn [bind] in H; cbv beta iota in H; try discriminate.
      destruct (Hreq _ _ _ _ Hr) as [d1 E1]. destruct (IH _ _ _ _ H) as [d2 E2].
      exists (d1 ++ d2). rewrite E2, E1, app_assoc. reflexivity.
    + destruct (IH _ _ _ _ H) as [d2 E2]. exists d2. exact E2.
  - destruct (f (counter w)) as [c| |]; cbn [bind] in H; cbv beta iota in H; try discriminate.
    destruct (IH _ _ _ _ H) as [d2 E2]. exists d2. exact E2.
Qed.

(** A call of [require] that returns has found the pair under its id,
    entered the function and run it to its end with a new [exports]. *)
Lemma require_Ok fuel modules id w r w' :
  require fuel modules id w = Ok (r, w') ->
  exists fuel' fn o e,
    fuel = S fuel' /\ lookup modules id = Some (fn, o) /\
    run (requireModule fuel' modules o) fn empty (enter id w) = Ok (e, w') /\
    r = Exports e.
Proof.
  destruct fuel as [|fuel']; [discriminate|]. cbn [require].
  destruct (lookup modules id) as [[fn o]|] eqn:Hl; [|discriminate].
  change (run (fun name => require fuel' modules (get o name)) fn empty (enter id w))
    with (run (requireModule fuel' modules o) fn empty (enter id w)).
  destruct (run (requireModule fuel' modules o) fn empty (enter id w))
    as [[e w1]| |] eqn:Hr; cbn [bind]; cbv beta iota; try discriminate.
  intros [= <- <-]. exists fuel', fn, o, e. auto.
Qed.

Lemma require_invoked fuel : forall modules id w r w',
  require fuel modules id w = Ok (r, w') ->
  exists di, invoked w' = invoked (enter id w) ++ di.
Proof.
  induction fuel as [|fuel IH]; intros modules id w r w' H; [discriminate|].
  apply require_Ok in H as (fuel' & fn & o & e & [= <-] & _ & Hr & _).
  apply (run_invoked (requireModule fuel modules o)) in Hr; [exact Hr|].
  intros name w2 r2 w2' H2. unfold requireModule in H2.
  destruct (IH _ _ _ _ _ H2) as [di E]. rewrite E.
  destruct (get o name); cbn [enter invoked]; eauto.
  exists ([n] ++ di). rewrite app_assoc. reflexivity.
Qed.

(** A specifier that the table does not hold: the read gives no number, the
    table of modules has no entry for what it gives, and destructuring
    nothing throws. *)
Lemma lookup_not_number modules v :
  (forall n, v <> VNum n) -> lookup modules v = None.
Proof. intros H. destruct v; try reflexivity. exfalso. exact (H n eq_refl). Qed.

Lemma requireModule_not_own fuel modules o name w :
  own o name = None ->
  requireModule (S fuel) modules o name w = Throw TypeError.
Proof.
  intros Ho. unfold requireModule. simpl.
  rewrite lookup_not_number; [reflexivity|].
  intros n Hn. apply get_own in Hn. congruence.
Qed.

(** Two factories that begin by requiring each other never return. *)
Lemma require_cycle modules a b na nb fa fb oa ob :
  entry_of modules a = Some (CallRequire na :: fa, oa) ->
  own oa na = Some b ->
  entry_of modules b = Some (CallRequire nb :: fb, ob) ->
  own ob nb = Some a ->
  forall fuel w,
    require fuel modules (VNum a) w = Timeout /\
    require fuel modules (VNum b) w = Timeout.
Proof.
  intros Ha Hoa Hb Hob.
  apply get_own in Hoa. apply get_own in Hob.
  induction fuel as [|fuel IH]; intros w; [split; reflexivity|].
  split; simpl.
  - rewrite Ha. simpl. rewrite Hoa. rewrite (proj2 (IH _)). reflexivity.
  - rewrite Hb. simpl. rewrite Hob. rewrite (proj1 (IH _)). reflexivity.
Qed.

(** The outer function returns nothing, whatever [require(0)] returned. *)
Lemma artifact_Ok fuel modules w r w' :
  artifact fuel modules w = Ok (r, w') ->
  r = Undefined /\
  exists exports, require fuel modules (VNum 0) w = Ok (Exports exports, w').
Proof.
  unfold artifact. intros H.
  destruct (require fuel modules (VNum 0) w) as [[r0 w0]| |] eqn:Hr; simpl in H;
    try discriminate.
  injection H as <- <-. split; [reflexivity|].
  destruct fuel as [|fuel]; [discriminate|]. simpl in Hr.
  destruct (entry_of modules 0) as [[fn o]|]; [|discriminate].
  destruct (run _ fn empty _) as [[e1 w1]| |]; simpl in Hr; try discriminate.
  injection Hr as <- <-. eauto.
Qed.

End LoaderFacts.

(* ===================================================================== *)
(** ** Facts about the emitted argument *)

Section HostFacts.

Import Builder Loader Host.

Variable behaviour : string -> factory.

Abbreviation table_entry := (Host.table_entry behaviour).

Lemma entry_of_absent (l : list module_record) n :
  (forall k m, l !! k = Some m -> id m <> n) ->
  entry_of (table_of behaviour l) n = None.
Proof.
  induction l as [|x l IH]; intros H; [reflexivity|]. simpl.
  rewrite IH by (intros k m Hk; exact (H (S k) m Hk)).
  destruct (id x =? n)%nat eqn:E; [|reflexivity].
  apply Nat.eqb_eq in E. exfalso. exact (H 0 x eq_refl E).
Qed.

(** With ids that follow the positions, the property under an id is the
    module at that position. *)
Lemma entry_of_table (l : list module_record) : forall c0 k m,
  (forall k m, l !! k = Some m -> id m = c0 + k) ->
  l !! k = Some m ->
  entry_of (table_of behaviour l) (c0 + k) = Some (table_entry m).
Proof.
  induction l as [|x l IH]; intros c0 k m Hids Hm; [discriminate|].
  destruct k as [|k]; simpl.
  - injection Hm as ->. rewrite entry_of_absent.
    + rewrite (Hids 0 m eq_refl), Nat.eqb_refl. reflexivity.
    + intros k x Hx. rewrite (Hids (S k) x Hx). lia.
  - replace (c0 + S k) with (S c0 + k) by lia.
    rewrite (IH (S c0) k m); [reflexivity | | exact Hm].
    intros k' x' Hx'. rewrite (Hids (S k') x' Hx'). lia.
Qed.

End HostFacts.

(* ===================================================================== *)
(** ** Facts about the emitter *)

Section EmitterFacts.

Import Builder Emitter.

Lemma append_assoc (a b c : string) : (a +:+ b) +:+ c = a +:+ (b +:+ c).
Proof.
  induction a as [|x a IH]; [reflexivity|].
  change (String x ((a +:+ b) +:+ c) = String x (a +:+ (b +:+ c))).
  f_equal. exact IH.
Qed.

Lemma append_nil_r (a : string) : a +:+ "" = a.
Proof.
  induction a as [|x a IH]; [reflexivity|].
  change (String x (a +:+ "") = String x a). f_equal. exact IH.
Qed.

Lemma fold_left_glue {A} (f : A -> string) (l : list A) : forall acc,
  fold_left (fun acc x => acc +:+ f x) l acc = acc +:+ glue (map f l).
Proof.
  induction l as [|x l IH]; intros acc; simpl.
  - rewrite append_nil_r. reflexivity.
  - rewrite IH, append_assoc. reflexivity.
Qed.

Lemma bundle_glue tree :
  bundle tree = loader_head +:+ glue (map entry tree) +:+ loader_tail.
Proof. unfold bundle. rewrite fold_left_glue. reflexivity. Qed.

End EmitterFacts.

(* ===================================================================== *)
(** ** Properties of the builder *)

Section BuilderProperties.

Import Builder.

Variable readFileSync : string -> fsnode.
Variable parse : string -> option Ast.node.
Variable traverse_throws : Ast.node -> option exn.
Variable transformFromAst : Ast.node -> option string.

Abbreviation createModule' := (Builder.createModule readFileSync parse traverse_throws transformFromAst).
Abbreviation build := (Builder.createDependenceTree readFileSync parse traverse_throws transformFromAst).
Abbreviation script := (main readFileSync parse traverse_throws transformFromAst).
Abbreviation reachable' := (reachable readFileSync parse).
Abbreviation chain' := (chain readFileSync parse).
Abbreviation declared' := (declared readFileSync parse).
Abbreviation source_of' := (source_of readFileSync parse traverse_throws transformFromAst).
Abbreviation Complete' := (Complete readFileSync parse traverse_throws transformFromAst).
Abbreviation read_error' := (read_error readFileSync).
Abbreviation finite_tree' := (finite_tree readFileSync parse traverse_throws transformFromAst).
Abbreviation tree_size' := (tree_size readFileSync parse traverse_throws transformFromAst).

Lemma source_of_Contents p deps code :
  source_of' p = Some (deps, code) ->
  exists text ast, readFileSync p = Contents text /\ parse text = Some ast /\
                   deps = Ast.traverse visitor ast [] /\
                   transformFromAst ast = Some code.
Proof.
  unfold source_of.
  destruct (readFileSync p) as [| |text|] eqn:Hr; try discriminate.
  destruct (parse text) as [ast|] eqn:Hp; try discriminate.
  destruct (traverse_throws ast); try discriminate.
  destruct (transformFromAst ast) as [c|] eqn:Ht; try discriminate.
  intros [= <- <-]. exists text, ast. auto.
Qed.

Lemma source_of_absent p : readFileSync p = NoEntry -> source_of' p = None.
Proof. unfold source_of. intros ->. reflexivity. Qed.

Lemma script_Ok fuel entry c0 text :
  script fuel entry c0 = Ok text <->
  exists l c', build fuel entry c0 = Ok (l, c') /\ text = Emitter.bundle l.
Proof.
  unfold main. destruct (build fuel entry c0) as [[l c']| |]; simpl.
  - split; [intros [= <-]; eauto | intros (? & ? & [= <- <-] & ->); reflexivity].
  - split; [discriminate | intros (? & ? & [=] & _)].
  - split; [discriminate | intros (? & ? & [=] & _)].
Qed.

Lemma script_Throw fuel entry c0 e :
  script fuel entry c0 = Throw e <-> build fuel entry c0 = Throw e.
Proof.
  unfold main. destruct (build fuel entry c0) as [[l c']| |]; simpl;
    split; congruence.
Qed.

Lemma script_Timeout fuel entry c0 :
  script fuel entry c0 = Timeout <-> build fuel entry c0 = Timeout.
Proof.
  unfold main. destruct (build fuel entry c0) as [[l c']| |]; simpl;
    split; congruence.
Qed.

(** Ids follow the positions in the list. *)
Lemma ids_seq (l : list module_record) : forall c,
  (forall k m, l !! k = Some m -> id m = c + k) ->
  map id l = seq c (length l).
Proof.
  induction l as [|x l IH]; intros c H; [reflexivity|]. simpl. f_equal.
  - rewrite (H 0 x eq_refl). lia.
  - apply IH. intros k m Hk. rewrite (H (S k) m Hk). lia.
Qed.

Lemma complete_length c0 entry l :
  Complete' c0 entry l ->
  length l = S (sum_list_with (fun m => length (dependencies m)) l).
Proof.
  intros HC. pose proof (inv_len _ _ _ _ _ _ _ _ HC) as H. simpl in H.
  unfold first_child in H. rewrite take_ge in H by lia. exact H.
Qed.

(** The ids a module's table holds are those of its own children, which
    lie before the children of every later module. *)
Lemma complete_values c0 entry l k m o s n :
  Complete' c0 entry l ->
  l !! k = Some m -> dependenceMapping m = Some o -> JsObject.own o s = Some n ->
  c0 + first_child l k <= n < c0 + first_child l (S k).
Proof.
  intros HC Hm Ho Hn.
  destruct (inv_done _ _ _ _ _ _ _ _ HC k m Hm) as (_ & D2 & _).
  { eapply lookup_lt_Some. exact Hm. }
  simpl in D2. rewrite Ho in D2. injection D2 as ->.
  apply own_assigned in Hn as [_ Hn].
  rewrite (first_child_S _ _ _ Hm). lia.
Qed.

Lemma complete_values_apart c0 entry l k1 k2 m1 m2 o1 o2 s1 s2 n1 n2 :
  Complete' c0 entry l ->
  l !! k1 = Some m1 -> l !! k2 = Some m2 -> k1 <> k2 ->
  dependenceMapping m1 = Some o1 -> dependenceMapping m2 = Some o2 ->
  JsObject.own o1 s1 = Some n1 -> JsObject.own o2 s2 = Some n2 ->
  n1 <> n2.
Proof.
  intros HC H1 H2 Hne Ho1 Ho2 Hn1 Hn2.
  pose proof (complete_values _ _ _ _ _ _ _ _ HC H1 Ho1 Hn1) as B1.
  pose proof (complete_values _ _ _ _ _ _ _ _ HC H2 Ho2 Hn2) as B2.
  destruct (Nat.lt_total k1 k2) as [Hlt | [Heq | Hgt]]; [|contradiction|].
  - pose proof (first_child_mono l (S k1) k2 ltac:(lia)). lia.
  - pose proof (first_child_mono l (S k2) k1 ltac:(lia)). lia.
Qed.

(** With an import cycle in reach the build returns no list; it throws or
    runs on. *)
Lemma cycle_never_Ok entry p fuel c0 l c' :
  reachable' entry p -> chain' p p -> build fuel entry c0 <> Ok (l, c').
Proof.
  intros Hr Hc H. apply createDependenceTree_Ok in H as [HC _].
  exact (cycle_incomplete _ _ _ _ _ _ _ _ Hr Hc HC).
Qed.

Lemma good_never_Throw entry fuel c0 e :
  (forall q, reachable' entry q -> source_of' q <> None) ->
  build fuel entry c0 <> Throw e.
Proof.
  intros Hgood H. apply createDependenceTree_Throw in H as (q & c & Hq & Hc).
  apply createModule_Throw in Hc as [Hnone _]. exact (Hgood q Hq Hnone).
Qed.

Lemma cycle_diverges entry p :
  reachable' entry p -> chain' p p ->
  (forall q, reachable' entry q -> source_of' q <> None) ->
  forall fuel c0, build fuel entry c0 = Timeout.
Proof.
  intros Hr Hc Hgood fuel c0.
  destruct (build fuel entry c0) as [[l c']| |] eqn:H; [| |reflexivity].
  - exfalso. exact (cycle_never_Ok _ _ _ _ _ _ Hr Hc H).
  - exfalso. exact (good_never_Throw _ _ _ _ Hgood H).
Qed.

Lemma bad_never_Ok entry q fuel c0 l c' :
  reachable' entry q -> source_of' q = None -> build fuel entry c0 <> Ok (l, c').
Proof.
  intros Hr Hbad H. apply createDependenceTree_Ok in H as [HC _].
  exact (bad_incomplete _ _ _ _ _ _ _ _ Hr Hbad HC).
Qed.

(** **** One module per import, not per path *)

(** C1 (as the code has it).  The builder keeps no record of the paths it
    has seen: a returned list holds the entry and one module for every
    specifier of every module in it.  So every reachable path has at least
    one module, and the tables of two different modules never hold the same
    id; two importers of one file get two modules for it. *)
Theorem C1_one_module_per_import fuel entry c0 l c' :
  build fuel entry c0 = Ok (l, c') ->
  (forall p, reachable' entry p -> exists k m, l !! k = Some m /\ path m = p) /\
  length l = S (sum_list_with (fun m => length (dependencies m)) l) /\
  (forall k1 k2 m1 m2 o1 o2 s1 s2 n1 n2,
      l !! k1 = Some m1 -> l !! k2 = Some m2 -> k1 <> k2 ->
      dependenceMapping m1 = Some o1 -> dependenceMapping m2 = Some o2 ->
      JsObject.own o1 s1 = Some n1 -> JsObject.own o2 s2 = Some n2 ->
      n1 <> n2).
Proof.
  intros H. apply createDependenceTree_Ok in H as [HC _].
  split; [|split].
  - intros p Hp. exact (complete_reachable _ _ _ _ _ _ _ HC p Hp).
  - exact (complete_length _ _ _ HC).
  - intros k1 k2 m1 m2 o1 o2 s1 s2 n1 n2 H1 H2 Hne Ho1 Ho2 Hn1 Hn2.
    exact (complete_values_apart _ _ _ _ _ _ _ _ _ _ _ _ _ HC H1 H2 Hne Ho1 Ho2 Hn1 Hn2).
Qed.

(** **** Import cycles *)

(** C2 (as the code has it).  When a path on an import cycle is reachable
    from the entry, the build never returns a list, and the script never
    prints a text; when moreover every reachable path is a file that reads,
    parses and transforms, nothing is thrown either: the loop runs on for
    any number of turns. *)
Theorem C2_cycle_never_returns entry p :
  reachable' entry p -> chain' p p ->
  (forall fuel c0 l c', build fuel entry c0 <> Ok (l, c')) /\
  (forall fuel c0 text, script fuel entry c0 <> Ok text) /\
  ((forall q, reachable' entry q -> source_of' q <> None) ->
   forall fuel c0, build fuel entry c0 = Timeout /\ script fuel entry c0 = Timeout).
Proof.
  intros Hr Hc. split; [|split].
  - intros fuel c0 l c'. exact (cycle_never_Ok _ _ _ _ _ _ Hr Hc).
  - intros fuel c0 text H. apply script_Ok in H as (l & c' & H & _).
    exact (cycle_never_Ok _ _ _ _ _ _ Hr Hc H).
  - intros Hgood fuel c0.
    pose proof (cycle_diverges _ _ Hr Hc Hgood fuel c0) as H.
    split; [exact H | apply script_Timeout; exact H].
Qed.

(** **** Resolution *)

(** C4 (as the code has it).  A specifier is resolved by [path.join] with
    the directory of the importing module and nothing else: in a returned
    list the child for the specifier at position [j] of a module has exactly
    the joined path, and that path is a regular file; and when the joined
    path of some reachable specifier is not a regular file, no list is
    returned, whatever else is on the disk. *)
Theorem C4_resolution_is_join fuel entry c0 l c' :
  build fuel entry c0 = Ok (l, c') ->
  (forall k m j s,
      l !! k = Some m -> dependencies m !! j = Some s ->
      exists ch text,
        l !! (first_child l k + j) = Some ch /\
        path ch = Path.join (Path.dirname (path m)) s /\
        readFileSync (Path.join (Path.dirname (path m)) s) = Contents text) /\
  (forall p deps s,
      reachable' entry p -> declared' p = Some deps -> In s deps ->
      exists text, readFileSync (Path.join (Path.dirname p) s) = Contents text).
Proof.
  intros H. apply createDependenceTree_Ok in H as [HC _]. split.
  - intros k m j s Hm Hs.
    destruct (complete_child _ _ _ _ _ _ _ HC _ _ _ _ Hm Hs) as (_ & ch & Hch & Hp).
    pose proof (inv_file _ _ _ _ _ _ _ _ HC _ _ Hch) as Hf.
    apply source_of_Contents in Hf as (text & ast & Hr & _).
    exists ch, text. rewrite <- Hp. auto.
  - intros p deps s Hp Hd Hs.
    destruct (complete_reachable _ _ _ _ _ _ _ HC _ (reach_import _ _ _ _ _ _ Hp Hd Hs))
      as (k & m & Hm & Hpm).
    pose proof (inv_file _ _ _ _ _ _ _ _ HC _ _ Hm) as Hf.
    apply source_of_Contents in Hf as (text & ast & Hr & _).
    exists text. rewrite <- Hpm. exact Hr.
Qed.

(** **** A specifier that leads nowhere *)


(** **** Ids *)

(** C6 (as the code has it).  A build that starts with the counter at [c0]
    and returns gives the module at position [k] the id [c0 + k], the entry
    first, and leaves the counter at [c0] plus the number of modules.  The
    counter is global and never reset: the entry has id 0 in a build that
    starts at 0. *)
Theorem C6_ids_count_from_counter fuel entry c0 l c' :
  build fuel entry c0 = Ok (l, c') ->
  map id l = seq c0 (length l) /\
  c' = c0 + length l /\
  (exists m0, l !! 0 = Some m0 /\ path m0 = entry /\ id m0 = c0) /\
  (forall k m, l !! k = Some m -> id m = c0 + k).
Proof.
  intros H. apply createDependenceTree_Ok in H as [HC ->].
  pose proof (inv_ids _ _ _ _ _ _ _ _ HC) as Hids. simpl in Hids.
  split; [apply ids_seq; exact Hids|]. split; [reflexivity|]. split; [|exact Hids].
  destruct (inv_entry _ _ _ _ _ _ _ _ HC) as (m0 & H0 & Hp). simpl in H0.
  exists m0. split; [exact H0|]. split; [exact Hp|].
  rewrite (Hids 0 m0 H0). lia.
Qed.

(** **** Order of discovery *)

(** C8.  On a finite tree of files the build returns, and the list it
    returns is the queue: the entry is first; the module at position [k] has
    id [c0 + k] and holds the import sources of the file at its path, in
    source order; the children of a module sit at consecutive positions, in
    the order of its specifiers, after the children of all modules before
    it; each child has the path joined from the directory of its parent, and
    every module but the entry is such a child of a module before it; the
    table of the parent is what assigning the specifiers in that order to
    the consecutive ids leaves, so a specifier reads back the id of the child
    made at its last occurrence; and every run that returns gives this list
    and counter. *)
Theorem C8_discovery_order n entry c0 :
  finite_tree' n entry = true ->
  exists l,
    build (S (tree_size' n entry)) entry c0 = Ok (l, c0 + tree_size' n entry) /\
    length l = tree_size' n entry /\
    (exists m0, l !! 0 = Some m0 /\ path m0 = entry) /\
    (forall k m, l !! k = Some m ->
       id m = c0 + k /\
       (exists text ast,
           readFileSync (path m) = Contents text /\ parse text = Some ast /\
           dependencies m = Ast.import_sources (Ast.nodes ast) /\
           transformFromAst ast = Some (code m)) /\
       k < first_child l k /\
       dependenceMapping m =
         Some (assigned (dependencies m) (c0 + first_child l k)) /\
       forall j s, dependencies m !! j = Some s ->
         exists ch, l !! (first_child l k + j) = Some ch /\
                    id ch = c0 + first_child l k + j /\
                    path ch = Path.join (Path.dirname (path m)) s /\
                    ((forall j', j < j' -> dependencies m !! j' <> Some s) ->
                     s <> "__proto__" ->
                     JsObject.own (assigned (dependencies m) (c0 + first_child l k)) s
                     = Some (id ch))) /\
    (forall k k' m, l !! k = Some m -> k < k' ->
       first_child l k + length (dependencies m) <= first_child l k') /\
    (forall k m, l !! k = Some m -> 1 <= k ->
       exists p parent j s,
         p < k /\ l !! p = Some parent /\ dependencies parent !! j = Some s /\
         k = first_child l p + j /\
         path m = Path.join (Path.dirname (path parent)) s) /\
    (forall fuel r, build fuel entry c0 = Ok r -> r = (l, c0 + tree_size' n entry)).
Proof.
  intros Hf.
  destruct (finite_builds readFileSync parse traverse_throws transformFromAst c0 entry n Hf)
    as (l & H0 & Hlen).
  exists l. split; [exact H0|]. split; [exact Hlen|].
  pose proof H0 as H. apply createDependenceTree_Ok in H as [HC _].
  pose proof (inv_ids _ _ _ _ _ _ _ _ HC) as Hids. cbn [moduleList] in Hids.
  split; [|split; [|split; [|split]]].
  - destruct (inv_entry _ _ _ _ _ _ _ _ HC) as (m0 & Hm0 & Hp).
    cbn [moduleList] in Hm0. eauto.
  - intros k m Hm. split; [exact (Hids _ _ Hm)|]. split.
    { pose proof (inv_file _ _ _ _ _ _ _ _ HC _ _ Hm) as Hfile.
      apply source_of_Contents in Hfile as (text & ast & Hr & Hp & Hd & Ht).
      exists text, ast. split; [exact Hr|]. split; [exact Hp|].
      split; [|exact Ht]. rewrite Hd. apply traverse_visitor. }
    destruct (inv_done _ _ _ _ _ _ _ _ HC k m Hm) as (D1 & D2 & D3).
    { eapply lookup_lt_Some. exact Hm. }
    cbn [moduleList] in D1, D2, D3. split; [exact D1|]. split; [exact D2|].
    intros j s Hs. destruct (D3 _ _ Hs) as (ch & Hch & Hp).
    exists ch. split; [exact Hch|]. rewrite (Hids _ _ Hch).
    split; [lia|]. split; [exact Hp|].
    intros Hlast Hproto. unfold assigned.
    rewrite (own_assign_all_last _ _ _ _ _ Hs Hlast Hproto). f_equal. lia.
  - intros k k' m Hm Hlt. rewrite <- (first_child_S _ _ _ Hm).
    apply first_child_mono. lia.
  - intros k m Hm Hk. exact (complete_parent _ _ _ _ _ _ _ _ _ HC Hm Hk).
  - intros fuel r Hr.
    pose proof (createDependenceTree_more _ _ _ _ _ _ _ _ fuel H0 ltac:(discriminate)) as E1.
    pose proof (createDependenceTree_more _ _ _ _ _ _ _ _ (S (tree_size' n entry)) Hr
                  ltac:(discriminate)) as E2.
    rewrite (Nat.add_comm fuel) in E2. congruence.
Qed.

(** **** What is collected as a dependency *)


(** **** The emitted text *)

(** C7 (as the code has it).  The text printed for a returned list is the
    loader, opened by [(function(modules) {] and closed by [})({], then one
    entry per module in list order, which is ascending id order, then
    [})].  An entry is the id, a colon, and the pair of the
    code wrapped in [function(require, module, exports) { }] and the
    [JSON.stringify] of the module's table.  The loader calls [require(0)]
    and drops what it returns: the outer function returns [undefined]. *)
Theorem C7_text_and_result fuel entry c0 l c' :
  build fuel entry c0 = Ok (l, c') ->
  script fuel entry c0 =
    Ok (Emitter.loader_head +:+ Emitter.glue (map Emitter.entry l) +:+ Emitter.loader_tail) /\
  (forall d,
      Emitter.entry d =
      Emitter.number_to_string (id d) +:+ ": [" +:+ Emitter.nl +:+
      "            function(require, module, exports) {" +:+ Emitter.nl +:+
      "                " +:+ code d +:+ Emitter.nl +:+
      "            }," +:+ Emitter.nl +:+
      "            " +:+ Emitter.stringify (dependenceMapping d) +:+ Emitter.nl +:+
      "        ],") /\
  map id l = seq c0 (length l) /\
  (forall k m, l !! k = Some m -> exists o, dependenceMapping m = Some o) /\
  (forall fuel' modules w r w',
      Loader.artifact fuel' modules w = Ok (r, w') ->
      r = Loader.Undefined /\
      exists exports,
        Loader.require fuel' modules (JsObject.VNum 0) w =
        Ok (Loader.Exports exports, w')).
Proof.
  intros H. split; [|split; [|split; [|split]]].
  - unfold main. rewrite H. simpl. rewrite bundle_glue. reflexivity.
  - intros d. reflexivity.
  - apply createDependenceTree_Ok in H as [HC _].
    apply ids_seq. exact (inv_ids _ _ _ _ _ _ _ _ HC).
  - intros k m Hm. apply createDependenceTree_Ok in H as [HC _].
    destruct (inv_done _ _ _ _ _ _ _ _ HC k m Hm) as (_ & D2 & _).
    { eapply lookup_lt_Some. exact Hm. }
    eauto.
  - intros fuel' modules w r w' Ha. exact (artifact_Ok _ _ _ _ _ Ha).
Qed.

End BuilderProperties.

(* ===================================================================== *)
(** ** Properties of the loader *)

Section LoaderProperties.

Import JsObject Loader.

(** C3 (as the code has it).  The loader keeps no exports.  Every call of
    [require] for an id that returns has looked up the pair under the id,
    entered its function and run it to the end with a new, empty [exports],
    whatever was required before; so of two calls for one id, the second
    made after the first whatever else was entered in between, each runs
    the function, and the function has been entered at least twice more
    when the second returns.  What a run of the function does to the world
    outside is up to the function. *)
Theorem C3_every_require_runs_the_factory
        fuel fuel' modules n w r w1 between w1' r' w2 :
  require fuel modules (VNum n) w = Ok (r, w1) ->
  invoked w1' = invoked w1 ++ between ->
  require fuel' modules (VNum n) w1' = Ok (r', w2) ->
  (exists fn o,
      entry_of modules n = Some (fn, o) /\
      (exists e di,
          run (requireModule (pred fuel) modules o) fn empty
              (World (counter w) (invoked w ++ [n])) = Ok (e, w1) /\
          r = Exports e /\ invoked w1 = invoked w ++ n :: di) /\
      (exists e' di',
          run (requireModule (pred fuel') modules o) fn empty
              (World (counter w1') (invoked w1' ++ [n])) = Ok (e', w2) /\
          r' = Exports e' /\ invoked w2 = invoked w1' ++ n :: di')) /\
  count_occ Nat.eq_dec (invoked w2) n >= 2 + count_occ Nat.eq_dec (invoked w) n.
Proof.
  intros H1 Hb H2.
  pose proof (require_invoked _ _ _ _ _ _ H1) as [d1 E1].
  pose proof (require_invoked _ _ _ _ _ _ H2) as [d2 E2].
  cbn [enter invoked] in E1, E2. rewrite <- app_assoc in E1, E2.
  apply require_Ok in H1 as (f1 & fn & o & e & -> & Hl & Hr1 & ->).
  apply require_Ok in H2 as (f2 & fn' & o' & e' & -> & Hl' & Hr2 & ->).
  cbn [lookup] in Hl, Hl'. rewrite Hl in Hl'. injection Hl' as <- <-.
  cbn [enter] in Hr1, Hr2. split.
  - exists fn, o. split; [exact Hl|]. split.
    + exists e, d1. auto.
    + exists e', d2. auto.
  - rewrite E2, Hb, E1, !count_occ_app. cbn [count_occ app].
    destruct (Nat.eq_dec n n) as [_|Hne]; [lia | contradiction].
Qed.

(** Two runs of one function need not do the same: a function that
    increments the counter only while it is 0 is entered by both calls and
    increments once. *)
Remark second_run_may_differ :
  let once := [Host (fun c => Ok (if (c =? 0)%nat then 1 else c))] in
  let modules := [(0, (once, empty))] in
  require 1 modules (VNum 0) (World 0 []) = Ok (Exports empty, World 1 [0]) /\
  require 1 modules (VNum 0) (World 1 [0]) = Ok (Exports empty, World 1 [0; 0]).
Proof. split; reflexivity. Qed.

(** C10.  When a factory calls the [require] it was given with a name that
    is not a key of its table ([name in dependenceMapping] is false), the
    read gives [undefined], the table of modules has nothing under
    [undefined], and destructuring that throws a [TypeError]: the call
    neither returns [undefined] nor reports the name, and the factory that
    made the call is left by the same exception. *)
Theorem C10_unknown_specifier_throws fuel modules o name w :
  has o name = false ->
  get o name = VUndefined /\
  lookup modules VUndefined = None /\
  requireModule (S fuel) modules o name w = Throw TypeError /\
  (forall n fn,
      entry_of modules n = Some (CallRequire name :: fn, o) ->
      require (S (S fuel)) modules (VNum n) w = Throw TypeError).
Proof.
  unfold has. intros Hhas.
  destruct (own o name) as [v|] eqn:Ho; [discriminate|].
  assert (Hget : get o name = VUndefined) by (unfold get; rewrite Ho, Hhas; reflexivity).
  split; [exact Hget|]. split; [reflexivity|]. split.
  - apply requireModule_not_own. exact Ho.
  - intros n fn Hn. cbn [require lookup]. rewrite Hn. cbn [run].
    rewrite Hget. reflexivity.
Qed.

End LoaderProperties.

(* ===================================================================== *)
(** ** Concrete runs *)

Module Runs.

Import Builder Example.

Abbreviation entry_js := "./example/entry.js".
Abbreviation on d := (Example.readFileSync d).

(** *** The diamond *)

Lemma diamond_build : Example.build diamond 6 entry_js 0 = Ok (diamond_tree, 5).
Proof. vm_compute. reflexivity. Qed.

(** C1, the claim against the code: on the diamond the list has two modules
    for [example/d.js], and the tables of [b.js] and [c.js] send [./d.js] to
    the ids 3 and 4. *)
Lemma C1_diamond_has_two_modules_for_d :
  Example.build diamond 6 entry_js 0 = Ok (diamond_tree, 5) /\
  length (List.filter (fun m => String.eqb (path m) "example/d.js") diamond_tree) = 2 /\
  (exists b c,
      diamond_tree !! 1 = Some b /\ path b = "example/b.js" /\
      diamond_tree !! 2 = Some c /\ path c = "example/c.js" /\
      dependenceMapping b = Some [("./d.js", 3)] /\
      dependenceMapping c = Some [("./d.js", 4)]).
Proof.
  split; [exact diamond_build|].
  split; [reflexivity|]. eexists _, _. repeat split; reflexivity.
Qed.

Lemma C1_witness :
  length diamond_tree = 5 /\
  (forall p, reachable (on diamond) Example.parse entry_js p ->
             exists k m, diamond_tree !! k = Some m /\ path m = p).
Proof.
  split; [reflexivity|].
  exact (proj1 (C1_one_module_per_import (on diamond) Example.parse
                  Example.traverse_throws Example.transformFromAst 6 entry_js 0 diamond_tree 5 diamond_build)).
Defined.

(** *** The cycle *)

Lemma cycle_reachable q :
  reachable (on cycle) Example.parse entry_js q ->
  q = entry_js \/ q = "example/a.js" \/ q = "example/b.js".
Proof.
  induction 1 as [|p deps s _ IH Hd Hs]; [auto|].
  destruct IH as [-> | [-> | ->]]; vm_compute in Hd; injection Hd as <-;
    destruct Hs as [<- | []]; vm_compute; auto.
Qed.

Lemma cycle_entry_to_a :
  reachable (on cycle) Example.parse entry_js "example/a.js".
Proof.
  apply (reach_import (on cycle) Example.parse entry_js entry_js ["./a.js"] "./a.js").
  - apply reach_entry.
  - reflexivity.
  - left. reflexivity.
Defined.

Lemma cycle_a_to_a : chain (on cycle) Example.parse "example/a.js" "example/a.js".
Proof.
  apply (chain_step _ _ "example/a.js" "example/b.js" "example/a.js").
  - exists ["./b.js"], "./b.js". repeat split. left. reflexivity.
  - apply chain_one. exists ["./a.js"], "./a.js". repeat split. left. reflexivity.
Defined.

(** C2, the claim against the code: on the cycle no run of the build
    returns a list of three modules, or any list; every run is still in the
    loop when its fuel is spent. *)
Lemma C2_cycle_build_runs_on :
  ~ (exists fuel l c', Example.build cycle fuel entry_js 0 = Ok (l, c') /\ length l = 3) /\
  (forall fuel, Example.build cycle fuel entry_js 0 = Timeout).
Proof.
  split.
  - intros (fuel & l & c' & H & _).
    exact (cycle_never_Ok _ _ _ _ _ _ _ _ _ _ cycle_entry_to_a cycle_a_to_a H).
  - intros fuel. apply (cycle_diverges _ _ _ _ _ _ cycle_entry_to_a cycle_a_to_a).
    intros q Hq. apply cycle_reachable in Hq as [-> | [-> | ->]]; discriminate.
Qed.

Lemma C2_witness :
  (forall fuel c0 l c', Example.build cycle fuel entry_js c0 <> Ok (l, c')) /\
  (forall fuel c0 text,
      main (on cycle) Example.parse Example.traverse_throws Example.transformFromAst fuel entry_js c0 <> Ok text).
Proof.
  pose proof (C2_cycle_never_returns (on cycle) Example.parse Example.traverse_throws Example.transformFromAst
                entry_js "example/a.js" cycle_entry_to_a cycle_a_to_a) as (H1 & H2 & _).
  split; [exact H1 | exact H2].
Defined.

(** *** The loader on a diamond *)

(** C3, the claim against the code: the entry imports one file twice, the
    build returns, both calls of [require] in the entry lead to id 2, and
    running the loader on the emitted table enters the function of 2 twice
    and leaves the counter at 2. *)
Lemma C3_factory_runs_at_every_require :
  Example.build twice 4 entry_js 0 = Ok (twice_tree, 3) /\
  Host.table_of Example.engine twice_tree = twice_table /\
  twice_table =
    [ (0, ([Loader.CallRequire "./a.js"; Loader.CallRequire "./a.js"],
           [("./a.js", 2)]));
      (1, ([Loader.Increment], []));
      (2, ([Loader.Increment], [])) ] /\
  Loader.artifact 3 twice_table start =
    Ok (Loader.Undefined, Loader.World 2 [0; 2; 2]) /\
  count_occ Nat.eq_dec [0; 2; 2] 2 = 2.
Proof. repeat split; vm_compute; reflexivity. Qed.

Lemma C3_witness :
  count_occ Nat.eq_dec (Loader.invoked (Loader.World 2 [2; 2])) 2
  >= 2 + count_occ Nat.eq_dec (Loader.invoked start) 2.
Proof.
  refine (proj2 (C3_every_require_runs_the_factory 1 1 twice_table 2 start
                   (Loader.Exports []) (Loader.World 1 [2]) [] (Loader.World 1 [2])
                   (Loader.Exports []) (Loader.World 2 [2; 2]) _ _ _));
    vm_compute; reflexivity.
Defined.

(** *** Specifiers without extension, and directories *)

(** C4, the claim against the code: with [./x.js] on the disk and [./x]
    not, the specifier [./x] makes the script throw the read error for
    [example/x]; a directory with an index file makes it throw [EISDIR]. *)
Lemma C4_no_fallback_is_probed :
  Example.readFileSync extensionless "example/x.js" = Contents "" /\
  Example.readFileSync extensionless "example/x" = NoEntry /\
  Example.script extensionless 1 = Throw (FsError ENOENT "example/x") /\
  Example.readFileSync directory "example/lib/index.js" = Contents "" /\
  Example.script directory 1 = Throw (FsError EISDIR "example/lib").
Proof. repeat split; reflexivity. Qed.

Lemma C4_witness :
  Example.build diamond 6 entry_js 0 = Ok (diamond_tree, 5) /\
  forall k m j s,
    diamond_tree !! k = Some m -> dependencies m !! j = Some s ->
    exists ch text,
      diamond_tree !! (first_child diamond_tree k + j) = Some ch /\
      path ch = Path.join (Path.dirname (path m)) s /\
      on diamond (Path.join (Path.dirname (path m)) s) = Contents text.
Proof.
  split; [exact diamond_build|].
  exact (proj1 (C4_resolution_is_join (on diamond) Example.parse
                  Example.traverse_throws Example.transformFromAst 6 entry_js 0 diamond_tree 5 diamond_build)).
Defined.

(** *** A missing file *)


(** When another reachable file fails first, its exception is the one
    thrown: here the syntax error of the file imported before the missing
    one. *)
Remark syntax_error_comes_first :
  Example.readFileSync broken "example/missing.js" = NoEntry /\
  Example.script broken 1 = Throw (SyntaxError "example/bad.js").
Proof. split; reflexivity. Qed.

(** The other calls of [createModule] throw as well: [traverse] on a name
    bound twice, the read on a path with a NUL byte. *)
Remark other_calls_throw :
  Example.script clash 1 = Throw TypeError /\
  createModule (on single) Example.parse Example.traverse_throws Example.transformFromAst
               (String Ascii.zero "") 0 = Throw TypeError.
Proof. split; vm_compute; reflexivity. Qed.

Lemma missing_does_not_read text :
  on missing (Path.join (Path.dirname entry_js) "./missing.js") <> Contents text.
Proof. vm_compute. discriminate. Qed.


(** *** Two builds, one counter *)

(** C6, the claim against the code: a second build in the same process
    starts with the counter the first one left, and its entry gets id 1. *)
Lemma C6_second_build_entry_has_id_one :
  exists l1 c1 l2 c2,
    Example.build single 2 entry_js 0 = Ok (l1, c1) /\
    Example.build single 2 entry_js c1 = Ok (l2, c2) /\
    map id l1 = [0] /\ map id l2 = [1].
Proof. eexists _, _, _, _. repeat split; reflexivity. Qed.

Lemma C6_witness :
  map id diamond_tree = seq 0 (length diamond_tree) /\ 5 = 0 + length diamond_tree.
Proof.
  pose proof (C6_ids_count_from_counter (on diamond) Example.parse
                Example.traverse_throws Example.transformFromAst 6 entry_js 0 diamond_tree 5 diamond_build)
    as (H1 & H2 & _).
  split; [exact H1 | exact H2].
Defined.

(** *** What the artifact returns *)

(** C7, the claim against the code: [require(0)] returns the exports of
    the entry, and the artifact returns [undefined]. *)
Lemma C7_artifact_drops_the_exports :
  Loader.require 1 answer_table (JsObject.VNum 0) start =
    Ok (Loader.Exports [("answer", 42)], Loader.World 0 [0]) /\
  Loader.artifact 1 answer_table start = Ok (Loader.Undefined, Loader.World 0 [0]).
Proof. split; reflexivity. Qed.

Lemma C7_witness :
  Example.script diamond 6 =
    Ok (Emitter.loader_head +:+ Emitter.glue (map Emitter.entry diamond_tree)
          +:+ Emitter.loader_tail) /\
  map id diamond_tree = seq 0 (length diamond_tree).
Proof.
  pose proof (C7_text_and_result (on diamond) Example.parse Example.traverse_throws Example.transformFromAst
                6 entry_js 0 diamond_tree 5 diamond_build) as (H1 & _ & H3 & _).
  split; [exact H1 | exact H3].
Defined.

(** *** Order *)

Lemma diamond_finite :
  finite_tree (on diamond) Example.parse Example.traverse_throws Example.transformFromAst
              3 entry_js = true.
Proof. vm_compute. reflexivity. Qed.

Lemma C8_witness :
  exists l,
    Example.build diamond
      (S (tree_size (on diamond) Example.parse Example.traverse_throws
                    Example.transformFromAst 3 entry_js)) entry_js 0
    = Ok (l, 0 + tree_size (on diamond) Example.parse Example.traverse_throws
                           Example.transformFromAst 3 entry_js) /\
    (exists m0, l !! 0 = Some m0 /\ path m0 = entry_js) /\
    (forall k m, l !! k = Some m -> id m = 0 + k) /\
    (forall fuel r,
        Example.build diamond fuel entry_js 0 = Ok r ->
        r = (l, 0 + tree_size (on diamond) Example.parse Example.traverse_throws
                              Example.transformFromAst 3 entry_js)).
Proof.
  destruct (C8_discovery_order (on diamond) Example.parse Example.traverse_throws
              Example.transformFromAst 3 entry_js 0 diamond_finite)
    as (l & H1 & _ & H3 & H4 & _ & _ & H7).
  exists l. split; [exact H1|]. split; [exact H3|]. split; [|exact H7].
  intros k m Hm. exact (proj1 (H4 k m Hm)).
Defined.

(** *** Imports and [require] calls *)

Lemma commonjs_createModule :
  createModule (on commonjs) Example.parse Example.traverse_throws Example.transformFromAst entry_js 0
  = Ok (commonjs_entry, 1).
Proof. vm_compute. reflexivity. Qed.


(** *** A name the table does not hold *)

Lemma C10_witness :
  JsObject.get [("./a.js", 1)] "./b.js" = JsObject.VUndefined /\
  Loader.requireModule 1 answer_table [("./a.js", 1)] "./b.js" start = Throw TypeError.
Proof.
  pose proof (C10_unknown_specifier_throws 0 answer_table [("./a.js", 1)] "./b.js" start
                eq_refl) as (H1 & _ & H3 & _).
  split; [exact H1 | exact H3].
Defined.

(** *** Two remarks on tables *)

(** Keys that are array indices are enumerated first and in ascending
    order, whatever the order of the assignments: the table of an entry
    that imports ['2'] and then ['1'] prints with ["1"] first. *)
Remark numeric_specifiers_print_sorted :
  assigned ["2"; "1"] 1 = [("1", 2); ("2", 1)] /\
  Emitter.stringify (Some (assigned ["2"; "1"] 1)) =
    "{" +:+ Emitter.quote "1" +:+ ":2," +:+ Emitter.quote "2" +:+ ":1}".
Proof. split; reflexivity. Qed.

(** A name that every object inherits is read as the inherited member, not
    as [undefined]; the loader throws the same [TypeError]. *)
Remark inherited_name_throws_too :
  JsObject.get [] "toString" = JsObject.VInherited "toString" /\
  Loader.requireModule 1 answer_table [] "toString" start = Throw TypeError.
Proof. split; reflexivity. Qed.

End Runs.

(* ===================================================================== *)
(** ** Further properties of the builder and of what it emits *)

Section FurtherProperties.

Import Builder.

Variable readFileSync : string -> fsnode.
Variable parse : string -> option Ast.node.
Variable traverse_throws : Ast.node -> option exn.
Variable transformFromAst : Ast.node -> option string.

Abbreviation build' := (Builder.createDependenceTree readFileSync parse traverse_throws transformFromAst).
Abbreviation script' := (main readFileSync parse traverse_throws transformFromAst).
Abbreviation reached := (reachable readFileSync parse).
Abbreviation made_of := (source_of readFileSync parse traverse_throws transformFromAst).
Abbreviation finite := (finite_tree readFileSync parse traverse_throws transformFromAst).
Abbreviation size := (tree_size readFileSync parse traverse_throws transformFromAst).
Abbreviation Completed := (Complete readFileSync parse traverse_throws transformFromAst).
Abbreviation thrown := (thrown_at readFileSync parse traverse_throws transformFromAst).

(** **** When the build returns *)

(** X1.  When the tree of imports under the entry is finite and all its
    files read, parse and transform, [createDependenceTree] returns: the loop
    makes one turn per file of the tree (a file imported twice counts
    twice), the list has that many modules, the counter has advanced by that
    much, and the script prints the bundle of the list. *)
Theorem X1_build_returns_on_finite_tree c0 entry n :
  finite n entry = true ->
  exists l,
    build' (S (size n entry)) entry c0 = Ok (l, c0 + size n entry) /\
    length l = size n entry /\
    script' (S (size n entry)) entry c0 = Ok (Emitter.bundle l).
Proof.
  intros Hf.
  destruct (finite_builds readFileSync parse traverse_throws transformFromAst c0 entry n Hf)
    as (l & Hb & Hlen).
  exists l. split; [exact Hb|]. split; [exact Hlen|].
  unfold main. rewrite Hb. reflexivity.
Qed.

(** X2.  Conversely, a list is returned only for a finite tree: when
    [createDependenceTree] returns a list, no chain of imports from the
    entry is longer than the list, every file on the way reads, parses and
    transforms, and the list has exactly as many modules as the tree has
    files. *)
Theorem X2_build_returns_only_on_finite_tree fuel entry c0 l c' :
  build' fuel entry c0 = Ok (l, c') ->
  finite (length l) entry = true /\ size (length l) entry = length l.
Proof.
  intros H. pose proof H as H0.
  apply createDependenceTree_Ok in H as [HC _].
  destruct (inv_entry _ _ _ _ _ _ _ _ HC) as (m0 & Hm0 & Hp). cbn [moduleList] in Hm0.
  assert (Hf : finite (length l) entry = true).
  { rewrite <- Hp. apply (complete_finite _ _ _ _ _ _ _ HC (length l) 0 m0 Hm0). lia. }
  split; [exact Hf|].
  destruct (finite_builds readFileSync parse traverse_throws transformFromAst c0 entry _ Hf)
    as (l' & Hb & Hlen).
  pose proof (createDependenceTree_more _ _ _ _ _ _ _ _ fuel Hb ltac:(discriminate)) as E1.
  pose proof (createDependenceTree_more _ _ _ _ _ _ _ _
                (S (size (length l) entry)) H0 ltac:(discriminate)) as E2.
  rewrite (Nat.add_comm fuel) in E2. rewrite E1 in E2. injection E2 as -> _.
  symmetry. exact Hlen.
Qed.

(** Two lists returned for one entry have the same length. *)
Lemma returned_lengths_agree fuel fuel' entry c0 c1 l l' c' c1' :
  build' fuel entry c0 = Ok (l, c') ->
  build' fuel' entry c1 = Ok (l', c1') ->
  length l' = length l.
Proof.
  intros H H'.
  apply createDependenceTree_Ok in H as [HC _].
  apply createDependenceTree_Ok in H' as [HC' _].
  destruct (Nat.lt_total (length l) (length l')) as [Hlt | [Heq | Hgt]].
  - destruct (lookup_lt_is_Some_2 l' (length l) Hlt) as [x Hx].
    destruct (complete_same_paths _ _ _ _ _ _ _ _ _ HC' HC _ _ Hx) as (x' & Hx' & _).
    apply lookup_lt_Some in Hx'. lia.
  - congruence.
  - destruct (lookup_lt_is_Some_2 l (length l') Hgt) as [x Hx].
    destruct (complete_same_paths _ _ _ _ _ _ _ _ _ HC HC' _ _ Hx) as (x' & Hx' & _).
    apply lookup_lt_Some in Hx'. lia.
Qed.

(** **** The graph that is returned *)

(** X3.  A returned list has no dangling reference: ids are pairwise
    different, and whatever id a module's table holds under a key is the id
    of a module of the list, which lies after the module itself, was made
    for an occurrence of that key among the module's specifiers, and has the
    path joined from the module's directory and the key. *)
Theorem X3_graph_is_closed fuel entry c0 l c' :
  build' fuel entry c0 = Ok (l, c') ->
  NoDup (map id l) /\
  (forall k m o s n,
      l !! k = Some m -> dependenceMapping m = Some o -> JsObject.own o s = Some n ->
      exists j ch,
        dependencies m !! j = Some s /\
        l !! (first_child l k + j) = Some ch /\ id ch = n /\
        k < first_child l k + j /\
        path ch = Path.join (Path.dirname (path m)) s).
Proof.
  intros H. apply createDependenceTree_Ok in H as [HC _].
  pose proof (inv_ids _ _ _ _ _ _ _ _ HC) as Hids. cbn [moduleList] in Hids.
  split.
  - rewrite (ids_seq l c0 Hids). apply NoDup_seq.
  - intros k m o s n Hm Ho Hn.
    destruct (inv_done _ _ _ _ _ _ _ _ HC k m Hm) as (D1 & D2 & D3).
    { eapply lookup_lt_Some. exact Hm. }
    cbn [moduleList] in D1, D2, D3. rewrite Ho in D2. injection D2 as ->.
    apply own_assign_all_index in Hn as [Hn | (j & Hj & ->)]; [discriminate|].
    destruct (D3 _ _ Hj) as (ch & Hch & Hp).
    exists j, ch. split; [exact Hj|]. split; [exact Hch|].
    split; [rewrite (Hids _ _ Hch); lia|]. split; [lia | exact Hp].
Qed.

(** X4.  A returned list holds nothing that was not imported: the path of
    every module is reachable from the entry, the module at index 0 is the
    entry, and every other module is the child of a module before it in the
    list, at the index that the parent's specifier gives it. *)
Theorem X4_every_module_is_imported fuel entry c0 l c' :
  build' fuel entry c0 = Ok (l, c') ->
  forall k m, l !! k = Some m ->
    reached entry (path m) /\
    ((k = 0 /\ path m = entry) \/
     (exists p parent j s,
         p < k /\ l !! p = Some parent /\ dependencies parent !! j = Some s /\
         k = first_child l p + j /\
         path m = Path.join (Path.dirname (path parent)) s)).
Proof.
  intros H k m Hm. apply createDependenceTree_Ok in H as [HC _].
  split; [exact (inv_reach _ _ _ _ _ _ _ _ HC _ _ Hm)|].
  destruct k as [|k].
  - left. split; [reflexivity|].
    destruct (inv_entry _ _ _ _ _ _ _ _ HC) as (m0 & Hm0 & Hp).
    cbn [moduleList] in Hm0. congruence.
  - right. apply (complete_parent _ _ _ _ _ _ _ _ _ HC Hm). lia.
Qed.

(** **** What the build throws *)

(** X5.  Whatever [createDependenceTree] throws was thrown inside
    [createModule] for a path reachable from the entry, by one of the calls
    it makes there: the read, [babylon.parse], [traverse] or
    [transformFromAst]; the builder catches nothing and throws nothing of
    its own.  Every run that throws throws the same, and a build that throws
    returns no list either, however long it is let run. *)
Theorem X5_build_errors_come_from_createModule fuel entry c0 e :
  build' fuel entry c0 = Throw e ->
  (exists q,
      reached entry q /\ thrown q e /\
      forall c, Builder.createModule readFileSync parse traverse_throws
                                     transformFromAst q c = Throw e) /\
  (forall fuel' e', build' fuel' entry c0 = Throw e' -> e' = e) /\
  (forall fuel' l c', build' fuel' entry c0 <> Ok (l, c')).
Proof.
  intros H. pose proof H as H0.
  apply createDependenceTree_Throw in H as (q & c & Hq & Hc).
  pose proof (createModule_Throw_cause _ _ _ _ _ _ _ Hc) as Hcause.
  split; [|split].
  - exists q. split; [exact Hq|]. split; [exact Hcause|].
    intros c1. apply thrown_at_Throw. exact Hcause.
  - intros fuel' e' H'.
    pose proof (createDependenceTree_more _ _ _ _ _ _ _ _ fuel' H0
                  ltac:(discriminate)) as E1.
    pose proof (createDependenceTree_more _ _ _ _ _ _ _ _ fuel H'
                  ltac:(discriminate)) as E2.
    rewrite (Nat.add_comm fuel' fuel) in E2. congruence.
  - intros fuel' l c'. apply createModule_Throw in Hc as [Hnone _].
    exact (bad_never_Ok _ _ _ _ _ _ _ _ _ _ Hq Hnone).
Qed.

(** **** Building again *)

(** X9.  The counter only shifts the ids: two builds of one entry that
    return, from whatever counters, give lists of the same length with the
    same path, code and specifiers at every index; the ids differ by the
    difference of the starting counters, and each table is what assigning
    the specifiers to consecutive ids leaves, from the same position on. *)
Theorem X9_rebuild_shifts_ids fuel fuel' entry c0 c1 l l' c' c1' :
  build' fuel entry c0 = Ok (l, c') ->
  build' fuel' entry c1 = Ok (l', c1') ->
  length l' = length l /\
  (forall k m, l !! k = Some m ->
     exists m',
       l' !! k = Some m' /\ path m' = path m /\ code m' = code m /\
       dependencies m' = dependencies m /\
       id m' + c0 = id m + c1 /\
       dependenceMapping m =
         Some (assigned (dependencies m) (c0 + first_child l k)) /\
       dependenceMapping m' =
         Some (assigned (dependencies m) (c1 + first_child l k))).
Proof.
  intros H H'. pose proof H as H0. pose proof H' as H0'.
  apply createDependenceTree_Ok in H as [HC _].
  apply createDependenceTree_Ok in H' as [HC' _].
  assert (Hlen : length l' = length l).
  { apply (returned_lengths_agree _ _ _ _ _ _ _ _ _ H0 H0'). }
  split; [exact Hlen|].
  intros k m Hm.
  destruct (complete_same_paths _ _ _ _ _ _ _ _ _ HC HC' k m Hm)
    as (m' & Hm' & Hp & Hd & Hc).
  exists m'. split; [exact Hm'|]. split; [exact Hp|]. split; [exact Hc|].
  split; [exact Hd|].
  pose proof (inv_ids _ _ _ _ _ _ _ _ HC _ _ Hm) as Hid.
  pose proof (inv_ids _ _ _ _ _ _ _ _ HC' _ _ Hm') as Hid'.
  cbn [moduleList] in Hid, Hid'. split; [lia|].
  destruct (inv_done _ _ _ _ _ _ _ _ HC k m Hm) as (_ & D2 & _).
  { eapply lookup_lt_Some. exact Hm. }
  destruct (inv_done _ _ _ _ _ _ _ _ HC' k m' Hm') as (_ & D2' & _).
  { eapply lookup_lt_Some. exact Hm'. }
  cbn [moduleList] in D2, D2'. split; [exact D2|].
  rewrite D2', Hd. do 3 f_equal.
  apply first_child_ext; [apply lookup_lt_Some in Hm; lia|].
  intros i Hi.
  destruct (lookup_lt_is_Some_2 l i) as [x Hx]; [apply lookup_lt_Some in Hm; lia|].
  destruct (complete_same_paths _ _ _ _ _ _ _ _ _ HC HC' i x Hx) as (x' & Hx' & _ & Hdx & _).
  rewrite Hx, Hx'. simpl. congruence.
Qed.

(** **** From the graph to the loader *)

Section WithBehaviour.

Variable behaviour : string -> Loader.factory.

Abbreviation table := (Host.table_of behaviour).

(** X6.  In the table of a returned list, the read of a declared specifier
    (other than [__proto__]) from a module's table gives the id of a module
    of the list whose path is the one joined from the module's directory and
    the specifier and whose code and specifiers are those of the file at
    that path; and looking that id up in the emitted argument gives that
    module's factory and table. *)
Theorem X6_declared_specifier_reaches_its_module fuel entry c0 l c' :
  build' fuel entry c0 = Ok (l, c') ->
  forall k m s,
    l !! k = Some m -> In s (dependencies m) -> s <> "__proto__" ->
    exists o ch och,
      dependenceMapping m = Some o /\ In ch l /\
      JsObject.get o s = JsObject.VNum (id ch) /\
      path ch = Path.join (Path.dirname (path m)) s /\
      made_of (path ch) = Some (dependencies ch, code ch) /\
      dependenceMapping ch = Some och /\
      Loader.lookup (table l) (JsObject.get o s) = Some (behaviour (code ch), och).
Proof.
  intros H k m s Hm Hs Hproto. apply createDependenceTree_Ok in H as [HC _].
  pose proof (inv_ids _ _ _ _ _ _ _ _ HC) as Hids. cbn [moduleList] in Hids.
  destruct (inv_done _ _ _ _ _ _ _ _ HC k m Hm) as (D1 & D2 & D3).
  { eapply lookup_lt_Some. exact Hm. }
  cbn [moduleList] in D1, D2, D3.
  destruct (last_occurrence _ _ Hs) as (j & Hj & Hlast).
  destruct (D3 _ _ Hj) as (ch & Hch & Hp).
  destruct (inv_done _ _ _ _ _ _ _ _ HC _ ch Hch) as (_ & E2 & _).
  { eapply lookup_lt_Some. exact Hch. }
  cbn [moduleList] in E2.
  assert (Hget : JsObject.get (assigned (dependencies m) (c0 + first_child l k)) s
                 = JsObject.VNum (id ch)).
  { apply get_own. unfold assigned.
    rewrite (own_assign_all_last _ _ _ _ _ Hj Hlast Hproto), (Hids _ _ Hch).
    f_equal. lia. }
  eexists _, ch, _. split; [exact D2|].
  split; [apply list_elem_of_In; eapply list_elem_of_lookup_2; exact Hch|].
  split; [exact Hget|]. split; [exact Hp|].
  split; [exact (inv_file _ _ _ _ _ _ _ _ HC _ _ Hch)|]. split; [exact E2|].
  rewrite Hget. cbn [Loader.lookup]. rewrite (Hids _ _ Hch).
  rewrite (entry_of_table behaviour l c0 _ ch Hids Hch).
  unfold Host.table_entry. rewrite E2. reflexivity.
Qed.

(** X8.  [require(0)] finds the entry only in the first build of a
    process: when the build started with the counter at 0 the emitted
    argument has the entry's factory and table under 0, and when it started
    later there is nothing under 0 and the artifact throws a [TypeError]
    before any factory runs. *)
Theorem X8_entry_is_under_zero_only_in_a_first_build fuel entry c0 l c' :
  build' fuel entry c0 = Ok (l, c') ->
  (c0 = 0 ->
   exists m0 o0,
     l !! 0 = Some m0 /\ path m0 = entry /\ dependenceMapping m0 = Some o0 /\
     Loader.lookup (table l) (JsObject.VNum 0) = Some (behaviour (code m0), o0)) /\
  (0 < c0 ->
   forall f w, Loader.artifact (S f) (table l) w = Throw TypeError).
Proof.
  intros H. apply createDependenceTree_Ok in H as [HC _].
  pose proof (inv_ids _ _ _ _ _ _ _ _ HC) as Hids. cbn [moduleList] in Hids.
  split.
  - intros ->. destruct (inv_entry _ _ _ _ _ _ _ _ HC) as (m0 & Hm0 & Hp).
    cbn [moduleList] in Hm0.
    destruct (inv_done _ _ _ _ _ _ _ _ HC 0 m0 Hm0) as (_ & D2 & _).
    { eapply lookup_lt_Some. exact Hm0. }
    eexists m0, _. split; [exact Hm0|]. split; [exact Hp|]. split; [exact D2|].
    cbn [Loader.lookup].
    pose proof (entry_of_table behaviour l 0 0 m0 Hids Hm0) as He.
    change (0 + 0) with 0 in He. rewrite He.
    unfold Host.table_entry. rewrite D2. reflexivity.
  - intros Hc0 f w. unfold Loader.artifact. cbn [Loader.require Loader.lookup].
    rewrite entry_of_absent; [reflexivity|].
    intros k m Hm. rewrite (Hids _ _ Hm). lia.
Qed.

End WithBehaviour.

End FurtherProperties.

(* ===================================================================== *)
(** ** Further concrete runs *)

Module FurtherRuns.

Import Builder Example.

Abbreviation entry_js := "./example/entry.js".
Abbreviation on d := (Example.readFileSync d).
Abbreviation idle := (fun _ : string => @nil Loader.statement).

Lemma missing_build :
  Example.build missing 1 entry_js 0 = Throw (FsError ENOENT "example/missing.js").
Proof. vm_compute. reflexivity. Qed.

Lemma single_first_build :
  Example.build single 2 entry_js 0 = Ok ([Module_ 0 "" [] entry_js (Some [])], 1).
Proof. vm_compute. reflexivity. Qed.

Lemma single_second_build :
  Example.build single 2 entry_js 1 = Ok ([Module_ 1 "" [] entry_js (Some [])], 2).
Proof. vm_compute. reflexivity. Qed.

Lemma X1_witness :
  exists l,
    Example.build diamond
      (S (tree_size (on diamond) Example.parse Example.traverse_throws Example.transformFromAst 3 entry_js))
      entry_js 0
    = Ok (l, 0 + tree_size (on diamond) Example.parse Example.traverse_throws Example.transformFromAst 3 entry_js) /\
    length l = tree_size (on diamond) Example.parse Example.traverse_throws Example.transformFromAst 3 entry_js /\
    main (on diamond) Example.parse Example.traverse_throws Example.transformFromAst
      (S (tree_size (on diamond) Example.parse Example.traverse_throws Example.transformFromAst 3 entry_js))
      entry_js 0
    = Ok (Emitter.bundle l).
Proof.
  exact (X1_build_returns_on_finite_tree (on diamond) Example.parse
           Example.traverse_throws Example.transformFromAst 0 entry_js 3 Runs.diamond_finite).
Defined.

Lemma X2_witness :
  finite_tree (on diamond) Example.parse Example.traverse_throws Example.transformFromAst
    (length diamond_tree) entry_js = true /\
  tree_size (on diamond) Example.parse Example.traverse_throws Example.transformFromAst
    (length diamond_tree) entry_js = length diamond_tree.
Proof.
  exact (X2_build_returns_only_on_finite_tree (on diamond) Example.parse
           Example.traverse_throws Example.transformFromAst 6 entry_js 0 diamond_tree 5 Runs.diamond_build).
Defined.

Lemma X3_witness :
  NoDup (map id diamond_tree) /\
  exists j ch,
    ["./d.js"] !! j = Some "./d.js" /\
    diamond_tree !! (first_child diamond_tree 2 + j) = Some ch /\ id ch = 4 /\
    2 < first_child diamond_tree 2 + j /\
    path ch = Path.join (Path.dirname "example/c.js") "./d.js".
Proof.
  pose proof (X3_graph_is_closed (on diamond) Example.parse Example.traverse_throws Example.transformFromAst
                6 entry_js 0 diamond_tree 5 Runs.diamond_build) as [H1 H2].
  split; [exact H1|].
  exact (H2 2 _ [("./d.js", 4)] "./d.js" 4 eq_refl eq_refl eq_refl).
Defined.

Lemma X4_witness :
  exists m,
    diamond_tree !! 4 = Some m /\
    reachable (on diamond) Example.parse entry_js (path m) /\
    ((4 = 0 /\ path m = entry_js) \/
     (exists p parent j s,
         p < 4 /\ diamond_tree !! p = Some parent /\
         dependencies parent !! j = Some s /\
         4 = first_child diamond_tree p + j /\
         path m = Path.join (Path.dirname (path parent)) s)).
Proof.
  eexists. split; [reflexivity|].
  exact (X4_every_module_is_imported (on diamond) Example.parse
           Example.traverse_throws Example.transformFromAst 6 entry_js 0 diamond_tree 5 Runs.diamond_build
           4 _ eq_refl).
Defined.

Lemma X5_witness :
  (exists q,
      reachable (on missing) Example.parse entry_js q /\
      thrown_at (on missing) Example.parse Example.traverse_throws
                Example.transformFromAst q (FsError ENOENT "example/missing.js") /\
      forall c, createModule (on missing) Example.parse Example.traverse_throws
                             Example.transformFromAst q c
                = Throw (FsError ENOENT "example/missing.js")) /\
  (forall fuel' e',
      Example.build missing fuel' entry_js 0 = Throw e' ->
      e' = FsError ENOENT "example/missing.js") /\
  (forall fuel' l c', Example.build missing fuel' entry_js 0 <> Ok (l, c')).
Proof.
  exact (X5_build_errors_come_from_createModule (on missing) Example.parse
           Example.traverse_throws Example.transformFromAst 1 entry_js 0 _ missing_build).
Defined.

Lemma X6_witness :
  exists m,
    diamond_tree !! 1 = Some m /\
    exists o ch och,
      dependenceMapping m = Some o /\ In ch diamond_tree /\
      JsObject.get o "./d.js" = JsObject.VNum (id ch) /\
      path ch = Path.join (Path.dirname (path m)) "./d.js" /\
      source_of (on diamond) Example.parse Example.traverse_throws Example.transformFromAst (path ch)
      = Some (dependencies ch, code ch) /\
      dependenceMapping ch = Some och /\
      Loader.lookup (Host.table_of idle diamond_tree) (JsObject.get o "./d.js")
      = Some (idle (code ch), och).
Proof.
  eexists. split; [reflexivity|].
  exact (X6_declared_specifier_reaches_its_module (on diamond) Example.parse
           Example.traverse_throws Example.transformFromAst idle 6 entry_js 0 diamond_tree 5 Runs.diamond_build
           1 _ "./d.js" eq_refl (or_introl eq_refl) ltac:(discriminate)).
Defined.

Lemma X8_witness :
  (1 = 0 ->
   exists m0 o0,
     [Module_ 1 "" [] entry_js (Some [])] !! 0 = Some m0 /\ path m0 = entry_js /\
     dependenceMapping m0 = Some o0 /\
     Loader.lookup (Host.table_of idle [Module_ 1 "" [] entry_js (Some [])])
       (JsObject.VNum 0) = Some (idle (code m0), o0)) /\
  (0 < 1 ->
   forall f w,
     Loader.artifact (S f) (Host.table_of idle [Module_ 1 "" [] entry_js (Some [])]) w
     = Throw TypeError).
Proof.
  exact (X8_entry_is_under_zero_only_in_a_first_build (on single) Example.parse
           Example.traverse_throws Example.transformFromAst idle 2 entry_js 1 _ 2 single_second_build).
Defined.

Lemma X9_witness :
  length [Module_ 1 "" [] entry_js (Some [])]
  = length [Module_ 0 "" [] entry_js (Some [])] /\
  (forall k m, [Module_ 0 "" [] entry_js (Some [])] !! k = Some m ->
     exists m',
       [Module_ 1 "" [] entry_js (Some [])] !! k = Some m' /\
       path m' = path m /\ code m' = code m /\
       dependencies m' = dependencies m /\
       id m' + 0 = id m + 1 /\
       dependenceMapping m =
         Some (assigned (dependencies m)
                 (0 + first_child [Module_ 0 "" [] entry_js (Some [])] k)) /\
       dependenceMapping m' =
         Some (assigned (dependencies m)
                 (1 + first_child [Module_ 0 "" [] entry_js (Some [])] k))).
Proof.
  exact (X9_rebuild_shifts_ids (on single) Example.parse Example.traverse_throws Example.transformFromAst
           2 2 entry_js 0 1 _ _ 1 2 single_first_build single_second_build).
Defined.

End FurtherRuns.
